(** * render-backend: the chat relay of [server.js]

    A shallow embedding of the socket event handlers of [src/server.js]
    ([join-chat], [send-message], [badge-update], [disconnect]) together
    with the four module-level stores they share ([userAddresses],
    [usernames], [userBadges], [sentMessages]), the pending
    [setTimeout] callbacks and the part of the transport the handlers
    talk to (room membership and the table of connected sockets).

    Conventions of the model:
    - the handlers are modelled twice: first on arguments that are
      JavaScript primitives ([jsval]), and then, in the module [Wire],
      on every value that [JSON.parse] can build, arrays and objects
      included; the two models agree on primitives.  Binary attachments
      and acknowledgement callbacks are outside of both, and numbers
      are the integers that JavaScript prints in plain decimal;
    - strings are byte strings and [toLowerCase] acts on the ASCII
      letters;
    - a handler either completes ([Ok]) or throws ([Throw]); an
      exception escaping a handler is not caught anywhere in the file;
    - [Date.now()] and the timer clock are one millisecond counter kept
      in the state; it is read once per handler run;
    - socket ids are those the transport generates, so they are never
      names of properties of [Object.prototype]. *)

From Stdlib Require Import Ascii String ZArith Lia.
From stdpp Require Import gmap strings list fin_maps pretty.

Local Open Scope string_scope.
Local Open Scope Z_scope.

(** ** JavaScript values and the operations the handlers apply to them *)

(** The primitive values.  Arrays and objects are values of
    [Wire.value], further down. *)
Inductive jsval : Type :=
  | VUndefined
  | VNull
  | VBool (b : bool)
  | VNum (n : Z)
  | VStr (s : string).

Global Instance jsval_eq_dec : EqDecision jsval.
Proof. solve_decision. Defined.

(** Outcome of running a piece of handler code. *)
Inductive result (A : Type) : Type :=
  | Ok (a : A)
  | Throw (e : string).
Arguments Ok {A} a.
Arguments Throw {A} e.

Global Instance result_bind : MBind result := λ A B k r,
  match r with
  | Ok a => k a
  | Throw e => Throw e
  end.

Definition is_ok {A : Type} (r : result A) : bool :=
  match r with Ok _ => true | Throw _ => false end.

(** ToBoolean. *)
Definition truthy (v : jsval) : bool :=
  match v with
  | VUndefined | VNull => false
  | VBool b => b
  | VNum n => negb (n =? 0)
  | VStr s => negb (String.eqb s EmptyString)
  end.

(** ToString, as applied by template literals and property keys. *)
Definition to_string (v : jsval) : string :=
  match v with
  | VUndefined => "undefined"
  | VNull => "null"
  | VBool true => "true"
  | VBool false => "false"
  | VNum n => pretty n
  | VStr s => s
  end.

Definition lower_ascii (c : ascii) : ascii :=
  let n := nat_of_ascii c in
  if (andb (Nat.leb 65 n) (Nat.leb n 90)) then ascii_of_nat (n + 32) else c.

(** [String.prototype.toLowerCase]. *)
Fixpoint toLowerCase (s : string) : string :=
  match s with
  | EmptyString => EmptyString
  | String c s' => String (lower_ascii c) (toLowerCase s')
  end.

(** [v.toLowerCase()]: only strings have the method. *)
Definition call_toLowerCase (v : jsval) : result string :=
  match v with
  | VStr s => Ok (toLowerCase s)
  | VUndefined | VNull =>
      Throw "TypeError: Cannot read properties of undefined (reading 'toLowerCase')"
  | VBool _ | VNum _ => Throw "TypeError: toLowerCase is not a function"
  end.

(** [v?.toLowerCase()]: [undefined] for a nullish receiver. *)
Definition optchain_toLowerCase (v : jsval) : result jsval :=
  match v with
  | VUndefined | VNull => Ok VUndefined
  | _ => s ← call_toLowerCase v; Ok (VStr s)
  end.

(** A parameter default [p = d] applies to [undefined] only. *)
Definition default_arg (d : jsval) (v : jsval) : jsval :=
  match v with
  | VUndefined => d
  | _ => v
  end.

(** [a || b]. *)
Definition js_or (a b : jsval) : jsval := if truthy a then a else b.

(** ** Chat rooms *)

Inductive chat_type : Type := Normal | Vip.

Global Instance chat_type_eq_dec : EqDecision chat_type.
Proof. solve_decision. Defined.

Definition chat_type_str (c : chat_type) : string :=
  match c with Normal => "normal" | Vip => "vip" end.

Module CHAT_ROOMS.
Definition NORMAL : string := "chat-normal".
Definition VIP : string := "chat-vip".
End CHAT_ROOMS.

Definition normalizeChatType (inputChatType : jsval) : result chat_type :=
  if truthy inputChatType then
    l ← call_toLowerCase inputChatType;
    if String.eqb l "vip" then Ok Vip else Ok Normal
  else Ok Normal.

Definition getChatRoom (chatType : chat_type) : string :=
  match chatType with
  | Vip => CHAT_ROOMS.VIP
  | Normal => CHAT_ROOMS.NORMAL
  end.

(** ** Time stamps

    [new Date(t).toISOString()] for a millisecond count [t]: the civil
    date of the proleptic Gregorian calendar, four-digit years from 0
    to 9999 and signed six-digit years otherwise.  The clock is taken to
    stay in the range a [Date] can hold, where the call does not
    throw. *)

Fixpoint zeros (k : nat) : string :=
  match k with
  | O => EmptyString
  | S k' => String "0" (zeros k')
  end.

(** [String(n).padStart(w, '0')] for a non-negative [n]. *)
Definition pad (w : nat) (n : Z) : string :=
  let s := pretty n in
  zeros (w - String.length s) +:+ s.

Definition civil_from_days (days : Z) : Z * Z * Z :=
  let z := days + 719468 in
  let era := z / 146097 in
  let doe := z - era * 146097 in
  let yoe := (doe - doe / 1460 + doe / 36524 - doe / 146096) / 365 in
  let doy := doe - (365 * yoe + yoe / 4 - yoe / 100) in
  let mp := (5 * doy + 2) / 153 in
  let d := doy - (153 * mp + 2) / 5 + 1 in
  let m := if mp <? 10 then mp + 3 else mp - 9 in
  let y := yoe + era * 400 + (if m <=? 2 then 1 else 0) in
  (y, m, d).

Definition year_str (y : Z) : string :=
  if (0 <=? y) && (y <=? 9999) then pad 4 y
  else (if y <? 0 then "-" else "+") +:+ pad 6 (Z.abs y).

Definition toISOString (t : Z) : string :=
  let '(y, m, d) := civil_from_days (t / 86400000) in
  let r := t mod 86400000 in
  year_str y +:+ "-" +:+ pad 2 m +:+ "-" +:+ pad 2 d +:+ "T" +:+
  pad 2 (r / 3600000) +:+ ":" +:+ pad 2 (r / 60000 mod 60) +:+ ":" +:+
  pad 2 (r / 1000 mod 60) +:+ "." +:+ pad 3 (r mod 1000) +:+ "Z".

(** ** The stores

    [userBadges] is a plain object literal, and its keys come from
    clients, so reads also see what the object inherits from
    [Object.prototype]: every inherited name reads as a function or an
    object, which is truthy.  Assigning to the inherited accessor
    [__proto__] stores nothing; assigning [null] to it detaches the
    prototype, after which the object only has its own properties. *)

Definition object_prototype_names : list string :=
  [ "constructor"; "__defineGetter__"; "__defineSetter__"; "hasOwnProperty";
    "__lookupGetter__"; "__lookupSetter__"; "isPrototypeOf";
    "propertyIsEnumerable"; "toString"; "valueOf"; "__proto__";
    "toLocaleString" ].

Record badge_store : Type := BadgeStore {
  own : gmap string jsval;
  inherits : bool
}.

(** Truthiness of [userBadges[k]]. *)
Definition badge_truthy (b : badge_store) (k : string) : bool :=
  match own b !! k with
  | Some v => truthy v
  | None => inherits b && bool_decide (k ∈ object_prototype_names)
  end.

(** [userBadges[k] = v]. *)
Definition badge_set (k : string) (v : jsval) (b : badge_store) : badge_store :=
  match own b !! k with
  | None =>
      if inherits b && String.eqb k "__proto__" then
        match v with
        | VNull => BadgeStore (own b) false
        | _ => b
        end
      else BadgeStore (<[k := v]> (own b)) (inherits b)
  | Some _ => BadgeStore (<[k := v]> (own b)) (inherits b)
  end.

Record state : Type := State {
  userAddresses : gmap string string;
  usernames : gmap string jsval;
  userBadges : badge_store;
  sentMessages : gset string;
  (** pending [setTimeout] callbacks: due time and the id to delete *)
  timers : list (Z * string);
  (** transport: pairs (socket id, room name) *)
  rooms : gset (string * string);
  (** transport: [io.sockets.sockets] *)
  sockets : gset string;
  (** [Date.now()] *)
  clock : Z
}.

Definition initial (now : Z) : state :=
  State ∅ ∅ (BadgeStore ∅ true) ∅ [] ∅ ∅ now.

Definition set_userAddresses (f : gmap string string → gmap string string)
    (s : state) : state :=
  State (f (userAddresses s)) (usernames s) (userBadges s) (sentMessages s)
        (timers s) (rooms s) (sockets s) (clock s).

Definition set_usernames (f : gmap string jsval → gmap string jsval)
    (s : state) : state :=
  State (userAddresses s) (f (usernames s)) (userBadges s) (sentMessages s)
        (timers s) (rooms s) (sockets s) (clock s).

Definition set_userBadges (f : badge_store → badge_store) (s : state) : state :=
  State (userAddresses s) (usernames s) (f (userBadges s)) (sentMessages s)
        (timers s) (rooms s) (sockets s) (clock s).

Definition set_rooms (f : gset (string * string) → gset (string * string))
    (s : state) : state :=
  State (userAddresses s) (usernames s) (userBadges s) (sentMessages s)
        (timers s) (f (rooms s)) (sockets s) (clock s).

(** [socket.join(room)] *)
Definition socket_join (sid room : string) (s : state) : state :=
  set_rooms (λ r, {[ (sid, room) ]} ∪ r) s.

(** ** Outbound events *)

Record message_obj : Type := MessageObj {
  msg_id : jsval;
  msg_message : jsval;
  msg_username : jsval;
  msg_timestamp : string;
  msg_messageId : string;
  msg_chatType : string
}.

Inductive emit : Type :=
  (** [io.emit('badge-update', address, hasBadge)] *)
  | IoEmitBadgeUpdate (address : string) (hasBadge : jsval)
  (** [io.to(room).emit('new-message', m, chatType)] *)
  | RoomEmitNewMessage (room : string) (m : message_obj) (chatType : string)
  (** [socket.emit('new-message', m, chatType)] on the socket [sid] *)
  | SocketEmitNewMessage (sid : string) (m : message_obj) (chatType : string).

Definition is_io_emit (e : emit) : bool :=
  match e with IoEmitBadgeUpdate _ _ => true | _ => false end.

Definition is_room_emit (e : emit) : bool :=
  match e with RoomEmitNewMessage _ _ _ => true | _ => false end.

Definition is_socket_emit_to (sid : string) (e : emit) : bool :=
  match e with
  | SocketEmitNewMessage c _ _ => bool_decide (c = sid)
  | _ => false
  end.


Definition count (p : emit → bool) (l : list emit) : nat :=
  length (List.filter p l).

(** ** The deduplication window

    Both [send-message] and [badge-update] guard their broadcast with
    [if (!sentMessages.has(id)) { sentMessages.add(id); ...;
    setTimeout(() => sentMessages.delete(id), 10000) }]. *)

Definition RETENTION : Z := 10000.

Definition admitOnce (fingerprint : string) (s : state) : bool * state :=
  if decide (fingerprint ∈ sentMessages s) then (false, s)
  else
    (true,
     State (userAddresses s) (usernames s) (userBadges s)
           ({[ fingerprint ]} ∪ sentMessages s)
           (timers s ++ [(clock s + RETENTION, fingerprint)])
           (rooms s) (sockets s) (clock s)).

(** [d] milliseconds go by; every callback that has come due runs. *)
Definition advance (d : Z) (s : state) : state :=
  let c := clock s + Z.max 0 d in
  State (userAddresses s) (usernames s) (userBadges s)
        (sentMessages s
           ∖ list_to_set (filter (λ t : Z * string, t.1 ≤ c) (timers s)).*2)
        (filter (λ t : Z * string, c < t.1) (timers s))
        (rooms s) (sockets s) c.

(** ** Event handlers *)

(** [if (address) { userAddresses[socket.id] = address.toLowerCase(); }] *)
Definition store_address (sid : string) (address : jsval) (s : state)
    : result state :=
  if truthy address then
    l ← call_toLowerCase address;
    Ok (set_userAddresses (<[sid := l]>) s)
  else Ok s.

(** [userAddresses[socket.id]] *)
Definition stored_address (sid : string) (s : state) : jsval :=
  match userAddresses s !! sid with
  | Some a => VStr a
  | None => VUndefined
  end.

(** [userAddresses[socket.id] || address] *)
Definition effective_address (sid : string) (address : jsval) (s : state)
    : jsval :=
  js_or (stored_address sid s) address.

(** [userBadges[userAddress?.toLowerCase()] || false] *)
Definition hasBadge (s : state) (userAddress : jsval) : result bool :=
  k ← optchain_toLowerCase userAddress;
  Ok (badge_truthy (userBadges s) (to_string k)).

Definition system_message (text : string) (now : Z) (uuid : string)
    (chatType : string) : message_obj :=
  MessageObj (VStr "system") (VStr text) (VStr "System") (toISOString now)
             ("system-" +:+ pretty now +:+ "-" +:+ uuid) chatType.

Definition VIP_SEND_REFUSED : string :=
  "You need a diamond badge to send messages to the VIP chat".

Definition VIP_WELCOME : string :=
  "ðŸŽ‰ Congratulations! You now have access to the VIP chat!".

(** [`${userAddress || socket.id}-${timestamp}-${message}-${chatType}`] *)
Definition make_messageId (sender : jsval) (timestamp : string)
    (message : jsval) (chatType : chat_type) : string :=
  to_string sender +:+ "-" +:+ timestamp +:+ "-" +:+ to_string message
  +:+ "-" +:+ chat_type_str chatType.

(** [`badge-${normalizedAddress}-${hasBadge}-${Date.now()}`] *)
Definition make_badgeEventId (normalizedAddress : string) (hasBadge : jsval)
    (now : Z) : string :=
  "badge-" +:+ normalizedAddress +:+ "-" +:+ to_string hasBadge +:+ "-"
  +:+ pretty now.

Definition join_chat (sid : string) (username address inputChatType : jsval)
    (s : state) : result (state * list emit) :=
  let address := default_arg (VStr EmptyString) address in
  let inputChatType := default_arg (VStr "normal") inputChatType in
  chatType ← normalizeChatType inputChatType;
  let roomName := getChatRoom chatType in
  s1 ← store_address sid address s;
  let s2 := set_usernames (<[sid := username]>) s1 in
  let s3 := socket_join sid roomName s2 in
  if truthy address then
    l ← call_toLowerCase address;
    if badge_truthy (userBadges s3) l
    then Ok (s3, [IoEmitBadgeUpdate l (VBool true)])
    else Ok (s3, [])
  else Ok (s3, []).

(** [uuid] is what [randomUUID()] returns if the handler calls it. *)
Definition send_message (uuid : string) (sid : string)
    (message username address inputChatType : jsval) (s : state)
    : result (state * list emit) :=
  let address := default_arg (VStr EmptyString) address in
  let inputChatType := default_arg (VStr "normal") inputChatType in
  chatType ← normalizeChatType inputChatType;
  let roomName := getChatRoom chatType in
  s1 ← store_address sid address s;
  let userAddress := effective_address sid address s1 in
  refused ← (if decide (chatType = Vip)
             then b ← hasBadge s1 userAddress; Ok (negb b)
             else Ok false);
  if refused : bool then
    Ok (s1, [SocketEmitNewMessage sid
               (system_message VIP_SEND_REFUSED (clock s1) uuid "normal")
               "normal"])
  else
    let timestamp := toISOString (clock s1) in
    let sender := js_or userAddress (VStr sid) in
    let messageId := make_messageId sender timestamp message chatType in
    let '(admitted, s2) := admitOnce messageId s1 in
    if admitted : bool then
      Ok (s2, [RoomEmitNewMessage roomName
                 (MessageObj sender message username timestamp messageId
                             (chat_type_str chatType))
                 (chat_type_str chatType)])
    else Ok (s2, []).

(** The sockets the grant loop reaches: the entries of [userAddresses]
    whose stored address is [address] and whose socket is still in
    [io.sockets.sockets].  The loop visits them in the order of
    [Object.entries]; here they come in the order the map lists them. *)
Definition vip_targets (address : string) (s : state) : list string :=
  (filter (λ p : string * string, p.2 = address ∧ p.1 ∈ sockets s)
          (map_to_list (userAddresses s))).*1.

(** [uuid c] is what [randomUUID()] returns when the loop welcomes [c]. *)
Definition grant_vip (uuid : string → string) (address : string) (s : state)
    : state * list emit :=
  let targets := vip_targets address s in
  (set_rooms (λ r, list_to_set ((λ c, (c, CHAT_ROOMS.VIP)) <$> targets) ∪ r) s,
   (λ c, SocketEmitNewMessage c
           (system_message VIP_WELCOME (clock s) (uuid c) "vip") "vip")
     <$> targets).

Definition badge_update (uuid : string → string) (sid : string)
    (address hasBadge : jsval) (s : state) : result (state * list emit) :=
  if negb (truthy address) then Ok (s, [])
  else
    normalizedAddress ← call_toLowerCase address;
    let s1 := set_userBadges (badge_set normalizedAddress hasBadge) s in
    let badgeEventId :=
      make_badgeEventId normalizedAddress hasBadge (clock s1) in
    let '(admitted, s2) := admitOnce badgeEventId s1 in
    if admitted : bool then
      if truthy hasBadge then
        let '(s3, welcomes) := grant_vip uuid normalizedAddress s2 in
        Ok (s3, IoEmitBadgeUpdate normalizedAddress hasBadge :: welcomes)
      else Ok (s2, [IoEmitBadgeUpdate normalizedAddress hasBadge])
    else Ok (s2, []).

(** What the transport does to a socket that closes, before the
    [disconnect] listener runs: it leaves every room and is dropped from
    [io.sockets.sockets]. *)
Definition transport_close (sid : string) (s : state) : state :=
  State (userAddresses s) (usernames s) (userBadges s) (sentMessages s)
        (timers s)
        (filter (λ p : string * string, p.1 ≠ sid) (rooms s))
        (sockets s ∖ {[ sid ]}) (clock s).

Definition disconnect (sid : string) (reason : jsval) (s : state) : state :=
  let s1 :=
    if truthy (stored_address sid s)
    then set_userAddresses (delete sid) s else s in
  if truthy (default VUndefined (usernames s1 !! sid))
  then set_usernames (delete sid) s1 else s1.

(** ** Runs of the server *)

Inductive event : Type :=
  | Connection (sid : string)
  | JoinChat (sid : string) (username address inputChatType : jsval)
  | SendMessage (uuid : string) (sid : string)
                (message username address inputChatType : jsval)
  | BadgeUpdate (uuid : string → string) (sid : string)
                (address hasBadge : jsval)
  | Disconnect (sid : string) (reason : jsval)
  | Elapse (d : Z).

Definition transport_open (sid : string) (s : state) : state :=
  State (userAddresses s) (usernames s) (userBadges s) (sentMessages s)
        (timers s) (rooms s) ({[ sid ]} ∪ sockets s) (clock s).

Definition step (e : event) (s : state) : result (state * list emit) :=
  match e with
  | Connection sid => Ok (transport_open sid s, [])
  | JoinChat sid u a c => join_chat sid u a c s
  | SendMessage uuid sid m u a c => send_message uuid sid m u a c s
  | BadgeUpdate uuid sid a b => badge_update uuid sid a b s
  | Disconnect sid r => Ok (disconnect sid r (transport_close sid s), [])
  | Elapse d => Ok (advance d s, [])
  end.

Fixpoint run (es : list event) (s : state) : result (state * list emit) :=
  match es with
  | [] => Ok (s, [])
  | e :: es' =>
      '(s1, o1) ← step e s;
      '(s2, o2) ← run es' s1;
      Ok (s2, (o1 ++ o2)%list)
  end.

(** Time that goes by during a run. *)
Fixpoint elapsed (es : list event) : Z :=
  match es with
  | [] => 0
  | Elapse d :: es' => Z.max 0 d + elapsed es'
  | _ :: es' => elapsed es'
  end.

(** ** Vocabulary of the properties *)

(** The spellings of [vip] up to letter case. *)
Definition vip_spellings : list string :=
  ["vip"; "viP"; "vIp"; "vIP"; "Vip"; "ViP"; "VIp"; "VIP"].

(** A parameter documented as a string: a string, or left out
    ([undefined], or [null] when the client sends an explicit blank). *)
Definition string_or_absent (v : jsval) : bool :=
  match v with
  | VStr _ | VUndefined | VNull => true
  | VBool _ | VNum _ => false
  end.

(** The room kind a client asks for, read off the spelling alone. *)
Definition requested_kind (c : jsval) : chat_type :=
  match c with
  | VStr x => if bool_decide (x ∈ vip_spellings) then Vip else Normal
  | _ => Normal
  end.

(** The badge check of [send-message] for a given sender: the address
    is stored first, then the flag of the effective address is read. *)
Definition sender_hasBadge (sid : string) (address : jsval) (s : state)
    : result bool :=
  let address := default_arg (VStr EmptyString) address in
  s1 ← store_address sid address s;
  hasBadge s1 (effective_address sid address s1).

(** The private notice a refused sender gets. *)
Definition refusal_notice (uuid sid : string) (s : state) : emit :=
  SocketEmitNewMessage sid
    (system_message VIP_SEND_REFUSED (clock s) uuid "normal") "normal".

(** How a handler run can move the window: not at all, or by admitting
    one new fingerprint. *)
Definition window_step (s s' : state) : Prop :=
  clock s' = clock s ∧
  ((sentMessages s' = sentMessages s ∧ timers s' = timers s) ∨
   ∃ fp, (fp ∉ sentMessages s) ∧
         sentMessages s' = {[ fp ]} ∪ sentMessages s ∧
         timers s' = (timers s ++ [(clock s + RETENTION, fp)])%list).

(** The fingerprint [F] sits in the window with a single pending expiry,
    due at [T]. *)
Definition retained (T : Z) (F : string) (s : state) : Prop :=
  F ∈ sentMessages s ∧ (T, F) ∈ timers s ∧ ∀ d, (d, F) ∈ timers s → d = T.

(** The window and the pending expiries agree: the fingerprints awaiting
    expiry are exactly those in the window, each once, each due within
    the retention time. *)
Definition window_consistent (s : state) : Prop :=
  NoDup (timers s).*2 ∧
  (∀ fp, fp ∈ sentMessages s ↔ fp ∈ (timers s).*2) ∧
  (∀ t, t ∈ timers s → clock s < t.1 ≤ clock s + RETENTION).

(** States the server can be in, from a start at any clock reading. *)
Definition reachable (s : state) : Prop :=
  ∃ now es o, run es (initial now) = Ok (s, o).

(** The state a run ends in (the start state if a handler throws). *)
Definition state_after (es : list event) (s : state) : state :=
  match run es s with
  | Ok (s', _) => s'
  | Throw _ => s
  end.

(** What a run emits (nothing if a handler throws). *)
Definition emitted (es : list event) (s : state) : list emit :=
  match run es s with
  | Ok (_, o) => o
  | Throw _ => []
  end.

(** A small session: two sockets connected and joined to the standard
    room, under different addresses. *)
Definition demo_events : list event :=
  [ Connection "s1";
    JoinChat "s1" (VStr "bob") (VStr "0xAB") (VStr "normal");
    Connection "s2";
    JoinChat "s2" (VStr "eve") (VStr "0xCD") VUndefined ].

Definition demo_state : state := state_after demo_events (initial 1700000000000).

(** Every stored address is a non-empty lower-case string. *)
Definition addresses_normalized (s : state) : Prop :=
  ∀ c a, userAddresses s !! c = Some a →
         a ≠ EmptyString ∧ toLowerCase a = a.

(** ** Vocabulary of the further properties *)

(** The socket an event comes from; time passing comes from none. *)

Definition socket_of (e : event) : option string :=
  match e with
  | Connection sid | JoinChat sid _ _ _ | SendMessage _ sid _ _ _ _
  | BadgeUpdate _ sid _ _ | Disconnect sid _ => Some sid
  | Elapse _ => None
  end.

Definition is_badge_update (e : event) : bool :=
  match e with BadgeUpdate _ _ _ _ => true | _ => false end.

Definition is_disconnect (e : event) : bool :=
  match e with Disconnect _ _ => true | _ => false end.

(** ** Tools for the time stamps *)

(** All of [f lo], [f (lo + 1)], ..., [n] of them. *)
Definition forall_range (f : Z → bool) (lo : Z) (n : positive) : bool :=
  (Pos.iter (λ p : bool * Z, (p.1 && f p.2, p.2 + 1)) (true, lo) n).1.

(** The check behind the round trip of the civil date, for one day of an
    era of 146097 days. *)
Definition era_day_ok (doe : Z) : bool :=
  let yoe := (doe - doe / 1460 + doe / 36524 - doe / 146096) / 365 in
  let doy := doe - (365 * yoe + yoe / 4 - yoe / 100) in
  let mp := (5 * doy + 2) / 153 in
  let d := doy - (153 * mp + 2) / 5 + 1 in
  let m := if mp <? 10 then mp + 3 else mp - 9 in
  (0 <=? yoe) && (yoe <=? 399) && (1 <=? m) && (m <=? 12) &&
  (1 <=? d) && (d <=? 31) &&
  (yoe * 365 + yoe / 4 - yoe / 100
   + (153 * (if 2 <? m then m - 3 else m + 9) + 2) / 5 + d - 1 =? doe).

(** The day number of a civil date, the inverse of [civil_from_days]. *)
Definition days_from_civil (y m d : Z) : Z :=
  let y' := if m <=? 2 then y - 1 else y in
  let era := y' / 400 in
  let yoe := y' - era * 400 in
  let mp := if 2 <? m then m - 3 else m + 9 in
  let doy := (153 * mp + 2) / 5 + d - 1 in
  let doe := yoe * 365 + yoe / 4 - yoe / 100 + doy in
  era * 146097 + doe - 719468.

(** The millisecond counts a [Date] can hold: 100 000 000 days on either
    side of the epoch.  Outside of it [toISOString] throws a
    [RangeError]. *)
Definition in_date_range (t : Z) : Prop :=
  -8640000000000000 ≤ t ≤ 8640000000000000.

(** [pad w n] has exactly [w] characters. *)
Definition pad_length_ok (w : nat) (n : Z) : bool :=
  Nat.eqb (String.length (pad w n)) w.

(** ** Vocabulary of the badge gate *)

(** The flag the badge directory holds for an address: the truthiness
    of the value stored under it, and [false] when none is stored. *)
Definition stored_flag (s : state) (a : string) : bool :=
  match own (userBadges s) !! a with
  | Some v => truthy v
  | None => false
  end.


(** A session under the address [__proto__]: a socket joins with it, a
    badge is granted to the address and, a little later, revoked. *)
Definition proto_session : list event :=
  [ Connection "s1";
    JoinChat "s1" (VStr "bob") (VStr "__proto__") (VStr "normal");
    BadgeUpdate (λ c, c) "s2" (VStr "__proto__") (VBool true);
    Elapse 5;
    BadgeUpdate (λ c, c) "s2" (VStr "__proto__") (VBool false) ].

(** A session in which a badge is granted to the address of the socket
    [s1] of [demo_events]. *)
Definition granted_events : list event :=
  demo_events ++ [ BadgeUpdate (λ c, c) "s2" (VStr "0xAB") (VBool true);
                   Elapse 5 ].

(** ** The handlers on every JSON value

    The transport hands a listener its arguments as [JSON.parse] built
    them, so an argument can also be an array or a plain object.  The
    module [Wire] is the model of the same handlers on such arguments:
    besides what the model above has, it has the template literals of
    the log lines and of the fingerprints, which convert a value to a
    string and throw on an object that cannot be converted, and the
    assignment of an array or an object to [userBadges.__proto__].  On
    primitive arguments the two models agree
    ([join_chat_on_primitives], [send_message_on_primitives],
    [badge_update_on_primitives], [disconnect_on_primitives]).

    What else the transport can pass, an acknowledgement callback (a
    function) or a binary attachment (a [Buffer]), is outside this
    model too. *)

Module Wire.

(** An object lists its own properties as they were sent; where a name
    occurs twice, [JSON.parse] keeps the last value. *)
#[warnings="-register-all"] Inductive value : Type :=
  | Prim (v : jsval)
  | Arr (items : list value)
  | Obj (props : list (string * value)).

(** [o[k]] for an own property [k] of an object that came from JSON. *)
Fixpoint get_prop (k : string) (props : list (string * value))
    : option value :=
  match props with
  | [] => None
  | (k', v) :: rest =>
      match get_prop k rest with
      | Some v' => Some v'
      | None => if String.eqb k' k then Some v else None
      end
  end.

(** [a[k]] for an element of an array: [k] is the decimal index. *)
Fixpoint get_item_from (i : Z) (k : string) (items : list value)
    : option value :=
  match items with
  | [] => None
  | x :: rest =>
      if String.eqb (pretty i) k then Some x
      else get_item_from (i + 1) k rest
  end.

Definition get_item (k : string) (items : list value) : option value :=
  get_item_from 0 k items.

(** ToBoolean: every array and every object is truthy. *)
Definition truthy (w : value) : bool :=
  match w with
  | Prim v => truthy v
  | Arr _ | Obj _ => true
  end.

(** ToString of a primitive. *)
Definition prim_string (v : jsval) : string := to_string v.

Definition CANNOT_CONVERT : string :=
  "TypeError: Cannot convert object to primitive value".

(** ToString, as a template literal applies it.  An array joins the
    strings of its elements with commas, [null] and [undefined]
    counting as empty.  A plain object gives [[object Object]] through
    [Object.prototype.toString], unless it has an own property
    [toString]: a value from JSON is never callable, so neither that
    property nor [valueOf] yields a primitive, and the conversion
    throws. *)
Fixpoint to_string (w : value) : result string :=
  match w with
  | Prim v => Ok (prim_string v)
  | Arr items =>
      (fix join (l : list value) : result string :=
         match l with
         | [] => Ok EmptyString
         | x :: rest =>
             s ← match x with
                 | Prim VUndefined | Prim VNull => Ok EmptyString
                 | _ => to_string x
                 end;
             match rest with
             | [] => Ok s
             | _ :: _ => r ← join rest; Ok (s +:+ "," +:+ r)
             end
         end) items
  | Obj props =>
      match get_prop "toString" props with
      | Some _ => Throw CANNOT_CONVERT
      | None => Ok "[object Object]"
      end
  end.

(** The values a template literal can take. *)
Definition printable (w : value) : bool := is_ok (to_string w).

(** [v.toLowerCase()]: only strings have the method. *)
Definition call_toLowerCase (w : value) : result string :=
  match w with
  | Prim v => call_toLowerCase v
  | Arr _ | Obj _ => Throw "TypeError: toLowerCase is not a function"
  end.

(** [v?.toLowerCase()]: [undefined] for a nullish receiver, and else a
    string. *)
Definition optchain_toLowerCase (w : value) : result jsval :=
  match w with
  | Prim VUndefined | Prim VNull => Ok VUndefined
  | _ => s ← call_toLowerCase w; Ok (VStr s)
  end.

Definition default_arg (d : value) (w : value) : value :=
  match w with
  | Prim VUndefined => d
  | _ => w
  end.

Definition js_or (a b : value) : value := if truthy a then a else b.

Definition normalizeChatType (inputChatType : value) : result chat_type :=
  if truthy inputChatType then
    l ← call_toLowerCase inputChatType;
    if String.eqb l "vip" then Ok Vip else Ok Normal
  else Ok Normal.

(** *** The stores *)

(** What [userBadges] inherits from.  It starts out below
    [Object.prototype].  Assigning to the inherited accessor
    [__proto__] changes that when the value is [null], an array or an
    object, and does nothing for any other value.  An array or object
    that came from JSON inherits from [Array.prototype] and
    [Object.prototype] in its turn. *)
Inductive prototype : Type :=
  | ProtoNull
  | ProtoObject
  | ProtoArr (items : list value)
  | ProtoObj (props : list (string * value)).

(** The property names of [Array.prototype] (ECMAScript 2023). *)
Definition array_prototype_names : list string :=
  [ "constructor"; "at"; "concat"; "copyWithin"; "fill"; "find";
    "findIndex"; "findLast"; "findLastIndex"; "lastIndexOf"; "pop"; "push";
    "reverse"; "shift"; "unshift"; "slice"; "sort"; "splice"; "includes";
    "indexOf"; "join"; "keys"; "entries"; "values"; "forEach"; "filter";
    "flat"; "flatMap"; "map"; "every"; "some"; "reduce"; "reduceRight";
    "toLocaleString"; "toString"; "toReversed"; "toSorted"; "toSpliced";
    "with" ].

Record badge_store : Type := BadgeStore {
  own : gmap string value;
  proto : prototype
}.

(** Truthiness of [p[k]] for the prototype [p]: every name of
    [Object.prototype] and of [Array.prototype] reads as a function or
    an object. *)
Definition inherited_truthy (p : prototype) (k : string) : bool :=
  match p with
  | ProtoNull => false
  | ProtoObject => bool_decide (k ∈ object_prototype_names)
  | ProtoObj props =>
      match get_prop k props with
      | Some v => truthy v
      | None => bool_decide (k ∈ object_prototype_names)
      end
  | ProtoArr items =>
      match get_item k items with
      | Some v => truthy v
      | None =>
          if String.eqb k "length" then negb (Nat.eqb (length items) 0)
          else bool_decide (k ∈ array_prototype_names)
               || bool_decide (k ∈ object_prototype_names)
      end
  end.

(** Truthiness of [userBadges[k]]. *)
Definition badge_truthy (b : badge_store) (k : string) : bool :=
  match own b !! k with
  | Some v => truthy v
  | None => inherited_truthy (proto b) k
  end.

(** Whether assigning to the name [__proto__], not an own property,
    runs the setter of [Object.prototype]: the chain has to reach it
    with no property of that name on the way. *)
Definition reaches_proto_setter (p : prototype) : bool :=
  match p with
  | ProtoNull => false
  | ProtoObject | ProtoArr _ => true
  | ProtoObj props =>
      match get_prop "__proto__" props with
      | Some _ => false
      | None => true
      end
  end.

Definition set_prototype (v : value) (p : prototype) : prototype :=
  match v with
  | Prim VNull => ProtoNull
  | Prim _ => p
  | Arr items => ProtoArr items
  | Obj props => ProtoObj props
  end.

(** [userBadges[k] = v]. *)
Definition badge_set (k : string) (v : value) (b : badge_store)
    : badge_store :=
  match own b !! k with
  | Some _ => BadgeStore (<[k := v]> (own b)) (proto b)
  | None =>
      if String.eqb k "__proto__" && reaches_proto_setter (proto b)
      then BadgeStore (own b) (set_prototype v (proto b))
      else BadgeStore (<[k := v]> (own b)) (proto b)
  end.

Record state : Type := State {
  userAddresses : gmap string string;
  usernames : gmap string value;
  userBadges : badge_store;
  sentMessages : gset string;
  timers : list (Z * string);
  rooms : gset (string * string);
  sockets : gset string;
  clock : Z
}.

Definition initial (now : Z) : state :=
  State ∅ ∅ (BadgeStore ∅ ProtoObject) ∅ [] ∅ ∅ now.

Definition set_userAddresses (f : gmap string string → gmap string string)
    (s : state) : state :=
  State (f (userAddresses s)) (usernames s) (userBadges s) (sentMessages s)
        (timers s) (rooms s) (sockets s) (clock s).

Definition set_usernames (f : gmap string value → gmap string value)
    (s : state) : state :=
  State (userAddresses s) (f (usernames s)) (userBadges s) (sentMessages s)
        (timers s) (rooms s) (sockets s) (clock s).

Definition set_userBadges (f : badge_store → badge_store) (s : state) : state :=
  State (userAddresses s) (usernames s) (f (userBadges s)) (sentMessages s)
        (timers s) (rooms s) (sockets s) (clock s).

Definition set_rooms (f : gset (string * string) → gset (string * string))
    (s : state) : state :=
  State (userAddresses s) (usernames s) (userBadges s) (sentMessages s)
        (timers s) (f (rooms s)) (sockets s) (clock s).

Definition socket_join (sid room : string) (s : state) : state :=
  set_rooms (λ r, {[ (sid, room) ]} ∪ r) s.

(** *** Outbound events *)

Record message_obj : Type := MessageObj {
  msg_id : value;
  msg_message : value;
  msg_username : value;
  msg_timestamp : string;
  msg_messageId : string;
  msg_chatType : string
}.

Inductive emit : Type :=
  | IoEmitBadgeUpdate (address : string) (hasBadge : value)
  | RoomEmitNewMessage (room : string) (m : message_obj) (chatType : string)
  | SocketEmitNewMessage (sid : string) (m : message_obj) (chatType : string).

Definition admitOnce (fingerprint : string) (s : state) : bool * state :=
  if decide (fingerprint ∈ sentMessages s) then (false, s)
  else
    (true,
     State (userAddresses s) (usernames s) (userBadges s)
           ({[ fingerprint ]} ∪ sentMessages s)
           (timers s ++ [(clock s + RETENTION, fingerprint)])
           (rooms s) (sockets s) (clock s)).

(** *** Event handlers *)

Definition store_address (sid : string) (address : value) (s : state)
    : result state :=
  if truthy address then
    l ← call_toLowerCase address;
    Ok (set_userAddresses (<[sid := l]>) s)
  else Ok s.

Definition stored_address (sid : string) (s : state) : value :=
  match userAddresses s !! sid with
  | Some a => Prim (VStr a)
  | None => Prim VUndefined
  end.

Definition effective_address (sid : string) (address : value) (s : state)
    : value :=
  js_or (stored_address sid s) address.

(** [userBadges[userAddress?.toLowerCase()] || false] *)
Definition hasBadge (s : state) (userAddress : value) : result bool :=
  k ← optchain_toLowerCase userAddress;
  Ok (badge_truthy (userBadges s) (prim_string k)).

Definition system_message (text : string) (now : Z) (uuid : string)
    (chatType : string) : message_obj :=
  MessageObj (Prim (VStr "system")) (Prim (VStr text)) (Prim (VStr "System"))
             (toISOString now)
             ("system-" +:+ pretty now +:+ "-" +:+ uuid) chatType.

(** The template of the message fingerprint converts the sender and
    then the message. *)
Definition make_messageId (sender : value) (timestamp : string)
    (message : value) (chatType : chat_type) : result string :=
  a ← to_string sender;
  m ← to_string message;
  Ok (a +:+ "-" +:+ timestamp +:+ "-" +:+ m +:+ "-" +:+ chat_type_str chatType).

Definition make_badgeEventId (normalizedAddress : string) (hasBadge : value)
    (now : Z) : result string :=
  b ← to_string hasBadge;
  Ok ("badge-" +:+ normalizedAddress +:+ "-" +:+ b +:+ "-" +:+ pretty now).

(** The first log line of [join-chat] converts the name and the address
    to strings before anything is stored. *)
Definition join_chat (sid : string) (username address inputChatType : value)
    (s : state) : result (state * list emit) :=
  let address := default_arg (Prim (VStr EmptyString)) address in
  let inputChatType := default_arg (Prim (VStr "normal")) inputChatType in
  chatType ← normalizeChatType inputChatType;
  let roomName := getChatRoom chatType in
  _ ← to_string username;
  _ ← to_string address;
  s1 ← store_address sid address s;
  let s2 := set_usernames (<[sid := username]>) s1 in
  let s3 := socket_join sid roomName s2 in
  if truthy address then
    l ← call_toLowerCase address;
    if badge_truthy (userBadges s3) l
    then Ok (s3, [IoEmitBadgeUpdate l (Prim (VBool true))])
    else Ok (s3, [])
  else Ok (s3, []).

(** The log lines of [send-message] convert the name to a string, the
    first one before anything is stored. *)
Definition send_message (uuid : string) (sid : string)
    (message username address inputChatType : value) (s : state)
    : result (state * list emit) :=
  let address := default_arg (Prim (VStr EmptyString)) address in
  let inputChatType := default_arg (Prim (VStr "normal")) inputChatType in
  chatType ← normalizeChatType inputChatType;
  let roomName := getChatRoom chatType in
  _ ← to_string username;
  s1 ← store_address sid address s;
  let userAddress := effective_address sid address s1 in
  refused ← (if decide (chatType = Vip)
             then b ← hasBadge s1 userAddress; Ok (negb b)
             else Ok false);
  if refused : bool then
    _ ← to_string username;
    Ok (s1, [SocketEmitNewMessage sid
               (system_message VIP_SEND_REFUSED (clock s1) uuid "normal")
               "normal"])
  else
    let timestamp := toISOString (clock s1) in
    let sender := js_or userAddress (Prim (VStr sid)) in
    messageId ← make_messageId sender timestamp message chatType;
    let '(admitted, s2) := admitOnce messageId s1 in
    if admitted : bool then
      Ok (s2, [RoomEmitNewMessage roomName
                 (MessageObj sender message username timestamp messageId
                             (chat_type_str chatType))
                 (chat_type_str chatType)])
    else Ok (s2, []).

Definition vip_targets (address : string) (s : state) : list string :=
  (filter (λ p : string * string, p.2 = address ∧ p.1 ∈ sockets s)
          (map_to_list (userAddresses s))).*1.

Definition grant_vip (uuid : string → string) (address : string) (s : state)
    : state * list emit :=
  let targets := vip_targets address s in
  (set_rooms (λ r, list_to_set ((λ c, (c, CHAT_ROOMS.VIP)) <$> targets) ∪ r) s,
   (λ c, SocketEmitNewMessage c
           (system_message VIP_WELCOME (clock s) (uuid c) "vip") "vip")
     <$> targets).

(** The flag is stored before the template of the fingerprint converts
    it to a string. *)
Definition badge_update (uuid : string → string) (sid : string)
    (address hasBadge : value) (s : state) : result (state * list emit) :=
  if negb (truthy address) then Ok (s, [])
  else
    normalizedAddress ← call_toLowerCase address;
    let s1 := set_userBadges (badge_set normalizedAddress hasBadge) s in
    badgeEventId ← make_badgeEventId normalizedAddress hasBadge (clock s1);
    let '(admitted, s2) := admitOnce badgeEventId s1 in
    if admitted : bool then
      if truthy hasBadge then
        let '(s3, welcomes) := grant_vip uuid normalizedAddress s2 in
        Ok (s3, IoEmitBadgeUpdate normalizedAddress hasBadge :: welcomes)
      else Ok (s2, [IoEmitBadgeUpdate normalizedAddress hasBadge])
    else Ok (s2, []).

(** The log line of [disconnect] converts the reason to a string; the
    transport always passes a string. *)
Definition disconnect (sid : string) (reason : value) (s : state)
    : result state :=
  _ ← to_string reason;
  let s1 :=
    if truthy (stored_address sid s)
    then set_userAddresses (delete sid) s else s in
  Ok (if truthy (default (Prim VUndefined) (usernames s1 !! sid))
      then set_usernames (delete sid) s1 else s1).

(** *** Documented inputs *)

Definition string_or_absent (w : value) : bool :=
  match w with
  | Prim v => string_or_absent v
  | Arr _ | Obj _ => false
  end.

Definition requested_kind (w : value) : chat_type :=
  match w with
  | Prim v => requested_kind v
  | Arr _ | Obj _ => Normal
  end.

End Wire.

(** ** The model on primitives inside [Wire] *)

Definition wire_badges (b : badge_store) : Wire.badge_store :=
  Wire.BadgeStore (Wire.Prim <$> own b)
                  (if inherits b then Wire.ProtoObject else Wire.ProtoNull).

Definition wire_state (s : state) : Wire.state :=
  Wire.State (userAddresses s) (Wire.Prim <$> usernames s)
             (wire_badges (userBadges s)) (sentMessages s) (timers s)
             (rooms s) (sockets s) (clock s).

Definition wire_message (m : message_obj) : Wire.message_obj :=
  Wire.MessageObj (Wire.Prim (msg_id m)) (Wire.Prim (msg_message m))
                  (Wire.Prim (msg_username m)) (msg_timestamp m)
                  (msg_messageId m) (msg_chatType m).

Definition wire_emit (e : emit) : Wire.emit :=
  match e with
  | IoEmitBadgeUpdate a b => Wire.IoEmitBadgeUpdate a (Wire.Prim b)
  | RoomEmitNewMessage r m t => Wire.RoomEmitNewMessage r (wire_message m) t
  | SocketEmitNewMessage c m t =>
      Wire.SocketEmitNewMessage c (wire_message m) t
  end.

Definition wire_result (r : result (state * list emit))
    : result (Wire.state * list Wire.emit) :=
  match r with
  | Ok (s, o) => Ok (wire_state s, wire_emit <$> o)
  | Throw e => Throw e
  end.

(** * Properties *)

(** ** Proof tools *)

(** Run the [≫=] of [result] once the computation it waits for is known. *)
Tactic Notation "run_bind" := cbn [mbind result_bind].
Tactic Notation "run_bind" "in" hyp(H) := cbn [mbind result_bind] in H.
Tactic Notation "run_bind" "in" "*" := cbn [mbind result_bind] in *.

Lemma run_cons_inv (e : event) (es : list event) (s s' : state) o :
  run (e :: es) s = Ok (s', o) →
  ∃ s1 o1 o2,
    step e s = Ok (s1, o1) ∧ run es s1 = Ok (s', o2) ∧ o = (o1 ++ o2)%list.
Proof.
  cbn [run]. destruct (step e s) as [[s1 o1]|]; [|discriminate]. run_bind.
  destruct (run es s1) as [[s2 o2]|] eqn:Hr; [|discriminate]. run_bind.
  intros [= <- <-]. by exists s1, o1, o2.
Qed.

Section RunInvariant.
Variable P : state → Prop.
Hypothesis step_preserves :
  ∀ e s s' o, step e s = Ok (s', o) → P s → P s'.

(** What every event preserves holds all along a run. *)
Lemma run_invariant (es : list event) :
  ∀ s s' o, run es s = Ok (s', o) → P s → P s'.
Proof.
  induction es as [|e es IH]; intros s s' o.
  - cbn. by intros [= <- <-].
  - intros (s1 & o1 & o2 & He & Hr & _)%run_cons_inv Hs.
    eapply IH; [exact Hr|]. by eapply step_preserves.
Qed.

Lemma reachable_invariant (s : state) :
  (∀ now, P (initial now)) → reachable s → P s.
Proof. intros H0 (now & es & o & Hr). by eapply run_invariant. Qed.
End RunInvariant.

(** ** Time stamps *)

Example toISOString_epoch : toISOString 0 = "1970-01-01T00:00:00.000Z".
Proof. vm_compute. reflexivity. Qed.

Example toISOString_2023 :
  toISOString 1700000000123 = "2023-11-14T22:13:20.123Z".
Proof. vm_compute. reflexivity. Qed.

Example toISOString_leap_day :
  toISOString 1709164800000 = "2024-02-29T00:00:00.000Z".
Proof. vm_compute. reflexivity. Qed.

Example toISOString_before_epoch :
  toISOString (-1) = "1969-12-31T23:59:59.999Z".
Proof. vm_compute. reflexivity. Qed.

(** ** Room normalization *)

Lemma lower_ascii_cases (c : ascii) :
  (lower_ascii c = "v"%char ↔ c = "v"%char ∨ c = "V"%char) ∧
  (lower_ascii c = "i"%char ↔ c = "i"%char ∨ c = "I"%char) ∧
  (lower_ascii c = "p"%char ↔ c = "p"%char ∨ c = "P"%char).
Proof.
  destruct c as [[] [] [] [] [] [] [] []]; vm_compute;
    (repeat split; [ try discriminate; auto .. ]);
    try (intros [H|H]; discriminate H).
Qed.

Lemma toLowerCase_vip (s : string) :
  toLowerCase s = "vip" ↔ s ∈ vip_spellings.
Proof.
  unfold vip_spellings. split.
  - destruct s as [|a [|b [|c [|d s]]]]; simpl; try discriminate.
    intros H. injection H as Ha Hb Hc.
    apply (lower_ascii_cases a) in Ha.
    apply (lower_ascii_cases b) in Hb.
    apply (lower_ascii_cases c) in Hc.
    destruct Ha as [-> | ->], Hb as [-> | ->], Hc as [-> | ->];
      set_solver.
  - rewrite !elem_of_cons, elem_of_nil.
    intros H. repeat (destruct H as [-> | H]; [reflexivity|]). destruct H.
Qed.

Lemma normalizeChatType_string (s : string) :
  normalizeChatType (VStr s)
  = Ok (if bool_decide (s ∈ vip_spellings) then Vip else Normal).
Proof.
  unfold normalizeChatType. simpl.
  destruct (String.eqb_spec s EmptyString) as [-> | Hne]; simpl.
  - reflexivity.
  - destruct (String.eqb_spec (toLowerCase s) "vip") as [He | He];
      rewrite toLowerCase_vip in He.
    + rewrite bool_decide_eq_true_2; done.
    + rewrite bool_decide_eq_false_2; done.
Qed.

Lemma normalizeChatType_falsy (v : jsval) :
  truthy v = false → normalizeChatType v = Ok Normal.
Proof. unfold normalizeChatType. intros ->. reflexivity. Qed.

(** ** Handlers on the inputs they document *)

Lemma normalizeChatType_declared (c : jsval) :
  string_or_absent c = true →
  normalizeChatType (default_arg (VStr "normal") c) = Ok (requested_kind c).
Proof.
  destruct c; try discriminate; intros _; try reflexivity.
  apply normalizeChatType_string.
Qed.

Lemma store_address_declared (sid : string) (a : jsval) (s : state) :
  string_or_absent a = true →
  store_address sid (default_arg (VStr EmptyString) a) s
  = Ok (if truthy a
        then set_userAddresses (<[sid := toLowerCase (to_string a)]>) s
        else s).
Proof.
  destruct a; try discriminate; intros _; try reflexivity.
  unfold store_address. simpl. destruct (negb _); reflexivity.
Qed.




(** The part of [join-chat] that can throw, on documented inputs. *)
Lemma join_chat_declared_ok (sid : string)
    (username address inputChatType : jsval) (s : state) :
  string_or_absent address = true →
  string_or_absent inputChatType = true →
  is_ok (join_chat sid username address inputChatType s) = true.
Proof.
  intros Ha Hc. unfold join_chat.
  rewrite (normalizeChatType_declared _ Hc), (store_address_declared _ _ _ Ha).
  run_bind.
  destruct address as [| | |n|a]; try discriminate; try reflexivity.
  cbn [default_arg]. destruct (truthy (VStr a)); [|reflexivity].
  cbn [call_toLowerCase]. run_bind. by destruct (badge_truthy _ _).
Qed.

(** ** Joining *)




(** ** Sending to the privileged room *)

Lemma store_address_frame (sid : string) (a : jsval) (s s1 : state) :
  store_address sid a s = Ok s1 →
  usernames s1 = usernames s ∧ userBadges s1 = userBadges s ∧
  sentMessages s1 = sentMessages s ∧ timers s1 = timers s ∧
  rooms s1 = rooms s ∧ sockets s1 = sockets s ∧ clock s1 = clock s ∧
  userAddresses s1
  = (if truthy a then <[sid := toLowerCase (to_string a)]> (userAddresses s)
     else userAddresses s).
Proof.
  unfold store_address. destruct (truthy a) eqn:Ht.
  - destruct a; try discriminate. cbn. intros [= <-]. done.
  - intros [= <-]. done.
Qed.






(** ** The deduplication window *)

Lemma admitOnce_window_step (fp : string) (s s0 : state) :
  clock s = clock s0 → sentMessages s = sentMessages s0 → timers s = timers s0 →
  window_step s0 (admitOnce fp s).2.
Proof.
  intros Hc Hs Ht. unfold admitOnce, window_step.
  destruct (decide (fp ∈ sentMessages s)) as [Hin|Hout]; cbn.
  - auto.
  - split; [done|]. right. exists fp. rewrite <- Hs, <- Ht, <- Hc. done.
Qed.

Lemma window_step_refl (s s' : state) :
  clock s' = clock s → sentMessages s' = sentMessages s →
  timers s' = timers s → window_step s s'.
Proof. unfold window_step. auto. Qed.

Lemma join_chat_window (sid : string) (u a c : jsval) (s s' : state) o :
  join_chat sid u a c s = Ok (s', o) → window_step s s'.
Proof.
  unfold join_chat. 
  destruct (normalizeChatType _) as [ct|]; [|discriminate].
  run_bind.
  destruct (store_address _ _ s) as [s1|] eqn:Hs; [|discriminate].
  apply store_address_frame in Hs as (_&_&Hm&Ht&_&_&Hc&_).
  run_bind.
  destruct (truthy _);
    [destruct (call_toLowerCase _); run_bind;
       [destruct (badge_truthy _ _)|] |];
    intros H; try discriminate H; injection H as <- <-;
    by apply window_step_refl.
Qed.

Lemma send_message_window (uuid sid : string) (m u a c : jsval)
    (s s' : state) o :
  send_message uuid sid m u a c s = Ok (s', o) → window_step s s'.
Proof.
  unfold send_message.
  destruct (normalizeChatType _) as [ct|]; [|discriminate].
  run_bind.
  destruct (store_address _ _ s) as [s1|] eqn:Hs; [|discriminate].
  apply store_address_frame in Hs as (_&_&Hm&Ht&_&_&Hc&_).
  run_bind.
  match goal with |- context [mbind _ ?r] => destruct r as [[]|] end;
    run_bind; try discriminate.
  - intros [= <- <-]. by apply window_step_refl.
  - match goal with |- context [admitOnce ?fp s1] =>
      pose proof (admitOnce_window_step fp s1 s Hc Hm Ht) as Hw;
      destruct (admitOnce fp s1) as [[] s2] end;
    intros [= <- <-]; exact Hw.
Qed.

Lemma badge_update_window (uuid : string → string) (sid : string)
    (a b : jsval) (s s' : state) o :
  badge_update uuid sid a b s = Ok (s', o) → window_step s s'.
Proof.
  unfold badge_update. destruct (negb (truthy a)).
  { intros [= <- <-]. by apply window_step_refl. }
  destruct (call_toLowerCase a) as [na|]; [|discriminate].
  run_bind.
  match goal with |- context [admitOnce ?fp ?s1] =>
    pose proof (admitOnce_window_step fp s1 s eq_refl eq_refl eq_refl) as Hw;
    destruct (admitOnce fp s1) as [[] s2] end.
  - destruct (truthy b).
    + cbn. intros [= <- <-]. exact Hw.
    + intros [= <- <-]. exact Hw.
  - intros [= <- <-]. exact Hw.
Qed.

Lemma disconnect_window (sid : string) (r : jsval) (s : state) :
  window_step s (disconnect sid r (transport_close sid s)).
Proof.
  apply window_step_refl; unfold disconnect;
    repeat match goal with |- context [if ?b then _ else _] => destruct b end;
    reflexivity.
Qed.

(** Every event other than the passing of time is a [window_step]. *)
Lemma step_window (e : event) (s s' : state) o :
  step e s = Ok (s', o) →
  match e with
  | Elapse d => s' = advance d s
  | _ => window_step s s'
  end.
Proof.
  destruct e; cbn [step].
  - intros [= <- <-]. by apply window_step_refl.
  - apply join_chat_window.
  - apply send_message_window.
  - apply badge_update_window.
  - intros [= <- <-]. apply disconnect_window.
  - by intros [= <- <-].
Qed.

Lemma admitOnce_fst (F : string) (s : state) :
  (admitOnce F s).1 = bool_decide (F ∉ sentMessages s).
Proof.
  unfold admitOnce. destruct (decide (F ∈ sentMessages s)); cbn.
  - by rewrite bool_decide_eq_false_2; [|intros ?].
  - by rewrite bool_decide_eq_true_2.
Qed.

Lemma admitOnce_retained (F : string) (s : state) :
  F ∉ sentMessages s → F ∉ (timers s).*2 →
  retained (clock s + RETENTION) F (admitOnce F s).2 ∧
  clock (admitOnce F s).2 = clock s.
Proof.
  intros Hs Ht. unfold admitOnce, retained.
  destruct (decide (F ∈ sentMessages s)) as [|_]; [done|]. cbn.
  split; [|done]. split; [set_solver|]. split.
  - apply elem_of_app. right. by apply list_elem_of_singleton.
  - intros d [Hd|Hd%list_elem_of_singleton]%elem_of_app.
    + destruct Ht. apply list_elem_of_fmap. by exists (d, F).
    + by injection Hd.
Qed.

Section Retention.
Variables (T : Z) (F : string).

Lemma retained_window_step (s s' : state) :
  retained T F s → window_step s s' → retained T F s'.
Proof.
  unfold retained.
  intros (Hs & Ht & Hu) (Hc & [[-> ->] | (fp & Hfp & -> & ->)]); [done|].
  assert (fp ≠ F) by (intros ->; done).
  split; [set_solver|]. split.
  - apply elem_of_app. by left.
  - intros d [Hd|Hd%list_elem_of_singleton]%elem_of_app; [by apply Hu|].
    by injection Hd.
Qed.

Lemma retained_advance (d : Z) (s : state) :
  retained T F s → clock s + Z.max 0 d < T → retained T F (advance d s).
Proof.
  intros (Hs & Ht & Hu) Hlt. unfold retained, advance; cbn.
  split; [|split].
  - apply elem_of_difference. split; [done|].
    rewrite elem_of_list_to_set, list_elem_of_fmap.
    intros ([d' fp] & Heq & [Hdue Hin]%list_elem_of_filter).
    cbn in Heq, Hdue. subst fp. apply Hu in Hin. lia.
  - apply list_elem_of_filter. by split.
  - intros d' [_ Hin]%list_elem_of_filter. by apply Hu.
Qed.

Lemma retained_expires (d : Z) (s : state) :
  retained T F s → T ≤ clock s + Z.max 0 d → F ∉ sentMessages (advance d s).
Proof.
  intros (Hs & Ht & Hu) Hle. unfold advance; cbn.
  rewrite elem_of_difference. intros [_ Hn]. apply Hn.
  rewrite elem_of_list_to_set, list_elem_of_fmap.
  exists (T, F). split; [done|]. apply list_elem_of_filter. by split.
Qed.

Lemma elapsed_nonneg (es : list event) : 0 ≤ elapsed es.
Proof. induction es as [|[] es IH]; cbn; lia. Qed.

(** While the expiry is not due, the entry stays, whatever is handled. *)
Lemma run_retained (es : list event) :
  ∀ (s s' : state) o,
    run es s = Ok (s', o) → retained T F s → clock s + elapsed es < T →
    retained T F s' ∧ clock s' = clock s + elapsed es.
Proof.
  induction es as [|e es IH]; intros s s' o.
  - cbn. intros [= <- <-] H _. split; [done|lia].
  - intros (s1 & o1 & o2 & He & Hr & _)%run_cons_inv Hret Hlt.
    pose proof (elapsed_nonneg es) as Hnn.
    apply step_window in He. destruct e;
      try (destruct (IH _ _ _ Hr) as [? ?];
           [ by eapply retained_window_step
           | destruct He as [-> _]; exact Hlt
           | split; [done|]; destruct He as [<- _]; done ]).
    subst s1. cbn [elapsed] in *.
    destruct (IH _ _ _ Hr) as [? Hc].
    + apply retained_advance; [done|lia].
    + cbn. lia.
    + split; [done|]. rewrite Hc. cbn. lia.
Qed.
End Retention.

Lemma NoDup_snd_unique {A B : Type} (l : list (A * B)) (a a' : A) (b : B) :
  NoDup l.*2 → (a, b) ∈ l → (a', b) ∈ l → a = a'.
Proof.
  induction l as [|[x y] l IH]; cbn; [by intros _ ?%elem_of_nil|].
  intros [Hn Hd]%NoDup_cons [ [= -> ->] | H1]%elem_of_cons
         [ [= ->] | H2]%elem_of_cons; try done.
  - destruct Hn. apply list_elem_of_fmap. by exists (a', y).
  - destruct Hn. apply list_elem_of_fmap. by exists (a, b).
  - by apply IH.
Qed.

Lemma window_consistent_initial (now : Z) : window_consistent (initial now).
Proof.
  split; [constructor|]. split.
  - intros fp. cbn. set_solver.
  - intros t Ht. cbn in Ht. by apply elem_of_nil in Ht.
Qed.

Lemma window_consistent_step (s s' : state) :
  window_consistent s → window_step s s' → window_consistent s'.
Proof.
  unfold window_consistent.
  intros (Hnd & Hiff & Hb) (Hc & [[-> ->] | (fp & Hfp & -> & ->)]);
    rewrite Hc; [done|].
  rewrite fmap_app. cbn. split; [|split].
  - apply NoDup_app. split; [done|]. split; [|apply NoDup_singleton].
    intros x Hx ->%list_elem_of_singleton. by apply Hfp, Hiff.
  - intros x. rewrite elem_of_union, elem_of_singleton, elem_of_app,
      list_elem_of_singleton, Hiff. tauto.
  - intros t [Ht | ->%list_elem_of_singleton]%elem_of_app; [by apply Hb|].
    cbn. unfold RETENTION. lia.
Qed.

Lemma window_consistent_advance (d : Z) (s : state) :
  window_consistent s → window_consistent (advance d s).
Proof.
  unfold window_consistent, advance. cbn.
  intros (Hnd & Hiff & Hb). split; [|split].
  - eapply sublist_NoDup; [exact Hnd|]. apply fmap_sublist, sublist_filter.
  - intros fp. rewrite elem_of_difference, elem_of_list_to_set, Hiff,
      !list_elem_of_fmap. split.
    + intros [([due fp'] & Heq & Hin) Hnf]. cbn in Heq. subst fp'.
      exists (due, fp). split; [done|]. apply list_elem_of_filter.
      split; [|done]. cbn.
      destruct (decide (clock s + Z.max 0 d < due)) as [|Hge]; [done|].
      destruct Hnf. exists (due, fp). split; [done|].
      apply list_elem_of_filter. split; [cbn; lia|done].
    + intros ([due fp'] & Heq & [Hlt Hin]%list_elem_of_filter).
      cbn in Heq, Hlt. subst fp'. split; [by exists (due, fp)|].
      intros ([due' fp'] & Heq & [Hle Hin']%list_elem_of_filter).
      cbn in Heq, Hle. subst fp'.
      pose proof (NoDup_snd_unique _ _ _ _ Hnd Hin Hin'). lia.
  - intros [due fp] [Hlt Hin]%list_elem_of_filter. cbn in *.
    apply Hb in Hin. cbn in Hin. lia.
Qed.

Lemma step_window_consistent (e : event) (s s' : state) o :
  step e s = Ok (s', o) → window_consistent s → window_consistent s'.
Proof.
  intros He%step_window Hs.
  destruct e; try (by eapply window_consistent_step).
  subst s'. by apply window_consistent_advance.
Qed.

Lemma reachable_window_consistent (s : state) :
  reachable s → window_consistent s.
Proof.
  apply reachable_invariant;
    [apply step_window_consistent | apply window_consistent_initial].
Qed.

(** C6. In a state where the window and its expiries agree (as in every
    reachable state), a fingerprint that is not in the window is
    admitted; from then on, whatever events the server handles, as long
    as less than 10 seconds have gone by another admission of the same
    fingerprint is turned down; and once 10 seconds or more have gone
    by since the admission, the entry has expired and the fingerprint is
    admitted again. *)
Theorem admitOnce_idempotent_within_retention (F : string) (s : state) :
  window_consistent s →
  F ∉ sentMessages s →
  (admitOnce F s).1 = true ∧
  (∀ es s2 o,
     run es (admitOnce F s).2 = Ok (s2, o) →
     elapsed es < RETENTION →
     (admitOnce F s2).1 = false) ∧
  (∀ es s2 o d,
     run es (admitOnce F s).2 = Ok (s2, o) →
     elapsed es < RETENTION →
     RETENTION ≤ elapsed es + d →
     (admitOnce F (advance d s2)).1 = true).
Proof.
  intros (Hnd & Hiff & Hb) Hout.
  assert (F ∉ (timers s).*2) as Hnt by (by rewrite <- Hiff).
  destruct (admitOnce_retained F s Hout Hnt) as [Hret Hclk].
  split; [|split].
  - rewrite admitOnce_fst. by apply bool_decide_eq_true_2.
  - intros es s2 o Hr Hlt.
    destruct (run_retained _ _ _ _ _ _ Hr Hret) as [(Hin & _) _];
      [rewrite Hclk; lia|].
    rewrite admitOnce_fst. apply bool_decide_eq_false_2. by intros ?.
  - intros es s2 o d Hr Hlt Hge.
    destruct (run_retained _ _ _ _ _ _ Hr Hret) as [Hret2 Hc2];
      [rewrite Hclk; lia|].
    rewrite admitOnce_fst. apply bool_decide_eq_true_2.
    eapply retained_expires; [exact Hret2|]. rewrite Hc2, Hclk. lia.
Qed.

Lemma admitOnce_idempotent_within_retention_witness :
  (admitOnce "m1" (initial 0)).1 = true ∧
  (∀ es s2 o,
     run es (admitOnce "m1" (initial 0)).2 = Ok (s2, o) →
     elapsed es < RETENTION →
     (admitOnce "m1" s2).1 = false) ∧
  (∀ es s2 o d,
     run es (admitOnce "m1" (initial 0)).2 = Ok (s2, o) →
     elapsed es < RETENTION →
     RETENTION ≤ elapsed es + d →
     (admitOnce "m1" (advance d s2)).1 = true).
Proof.
  apply (admitOnce_idempotent_within_retention "m1" (initial 0)).
  - apply window_consistent_initial.
  - cbn. apply not_elem_of_empty.
Defined.

(** ** Repeated events *)

Lemma admitOnce_in (fp : string) (s : state) :
  fp ∈ sentMessages (admitOnce fp s).2.
Proof.
  unfold admitOnce. destruct (decide (fp ∈ sentMessages s)); cbn; set_solver.
Qed.

Lemma admitOnce_present (fp : string) (s : state) :
  fp ∈ sentMessages s → admitOnce fp s = (false, s).
Proof. intros H. unfold admitOnce. by destruct (decide _). Qed.

Lemma admitOnce_frame (fp : string) (s : state) :
  userAddresses (admitOnce fp s).2 = userAddresses s ∧
  usernames (admitOnce fp s).2 = usernames s ∧
  userBadges (admitOnce fp s).2 = userBadges s ∧
  rooms (admitOnce fp s).2 = rooms s ∧
  sockets (admitOnce fp s).2 = sockets s ∧
  clock (admitOnce fp s).2 = clock s.
Proof. unfold admitOnce. by destruct (decide _). Qed.



Lemma send_message_outputs (uuid sid : string)
    (message username address inputChatType : jsval) (s s1 : state) o1 :
  send_message uuid sid message username address inputChatType s
  = Ok (s1, o1) →
  ∃ ct sa,
    normalizeChatType (default_arg (VStr "normal") inputChatType) = Ok ct ∧
    store_address sid (default_arg (VStr EmptyString) address) s = Ok sa ∧
    let sender :=
      js_or (effective_address sid (default_arg (VStr EmptyString) address) sa)
            (VStr sid) in
    let timestamp := toISOString (clock s) in
    o1 = [] ∨
    o1 = [refusal_notice uuid sid s] ∨
    o1 = [RoomEmitNewMessage (getChatRoom ct)
            (MessageObj sender message username timestamp
               (make_messageId sender timestamp message ct)
               (chat_type_str ct))
            (chat_type_str ct)].
Proof.
  unfold send_message.
  destruct (normalizeChatType _) as [ct|]; [|discriminate].
  run_bind.
  destruct (store_address _ _ s) as [sa|] eqn:Hs; [|discriminate].
  run_bind. intros H. exists ct, sa.
  split; [reflexivity|]. split; [reflexivity|]. cbv zeta.
  apply store_address_frame in Hs as (_&_&_&_&_&_&Hc&_).
  unfold refusal_notice. rewrite <- Hc. revert H.
  match goal with |- mbind _ ?r = _ → _ => destruct r as [[]|] end;
    run_bind; [| |discriminate].
  - intros [= <- <-]. right. by left.
  - destruct (admitOnce _ sa) as [[] s2]; intros [= <- <-]; cbn; auto.
Qed.





(** ** Badge updates *)

Lemma vip_targets_NoDup (address : string) (s : state) :
  NoDup (vip_targets address s).
Proof.
  unfold vip_targets.
  eapply sublist_NoDup; [apply (NoDup_fst_map_to_list (userAddresses s))|].
  apply fmap_sublist, sublist_filter.
Qed.

Lemma elem_of_vip_targets (address c : string) (s : state) :
  c ∈ vip_targets address s ↔
  userAddresses s !! c = Some address ∧ c ∈ sockets s.
Proof.
  unfold vip_targets. rewrite list_elem_of_fmap. split.
  - intros ([c' a] & -> & [[Ha Hc] Hin]%list_elem_of_filter).
    cbn in *. subst a. by apply elem_of_map_to_list in Hin.
  - intros [Hl Hc]. exists (c, address). split; [done|].
    apply list_elem_of_filter. split; [done|]. by apply elem_of_map_to_list.
Qed.

Lemma count_cons (p : emit → bool) (e : emit) (l : list emit) :
  count p (e :: l) = ((if p e then 1 else 0) + count p l)%nat.
Proof. unfold count. cbn. by destruct (p e). Qed.

Lemma count_welcomes (c : string) (f : string → message_obj) (t : string)
    (l : list string) :
  NoDup l →
  count (is_socket_emit_to c) ((λ c', SocketEmitNewMessage c' (f c') t) <$> l)
  = if bool_decide (c ∈ l) then 1%nat else 0%nat.
Proof.
  unfold count. induction 1 as [|x l Hx Hnd IH]; [done|].
  cbn [fmap list_fmap List.filter is_socket_emit_to].
  destruct (decide (x = c)) as [->|Hne].
  - rewrite bool_decide_eq_true_2 by done. cbn [length]. rewrite IH.
    rewrite (bool_decide_eq_false_2 (c ∈ l)) by done.
    rewrite bool_decide_eq_true_2; [done|]. by left.
  - rewrite bool_decide_eq_false_2 by done. rewrite IH.
    rewrite (bool_decide_ext (c ∈ x :: l) (c ∈ l)); [done|].
    rewrite elem_of_cons. split; [by intros [->|?] | by right].
Qed.

Lemma count_welcomes_other (p : emit → bool) (f : string → message_obj)
    (t : string) (l : list string) :
  (∀ c m t', p (SocketEmitNewMessage c m t') = false) →
  count p ((λ c', SocketEmitNewMessage c' (f c') t) <$> l) = 0%nat.
Proof.
  intros Hp. unfold count. induction l as [|x l IH]; [done|].
  cbn. by rewrite Hp.
Qed.

(** What a [badge-update] with a non-empty address emits when its
    fingerprint is admitted. *)
Lemma badge_update_admitted (uuid : string → string) (sid a : string)
    (b : jsval) (s : state) :
  a ≠ EmptyString →
  make_badgeEventId (toLowerCase a) b (clock s) ∉ sentMessages s →
  ∃ s',
    badge_update uuid sid (VStr a) b s
    = Ok (s', IoEmitBadgeUpdate (toLowerCase a) b ::
              if truthy b
              then (λ c, SocketEmitNewMessage c
                           (system_message VIP_WELCOME (clock s) (uuid c) "vip")
                           "vip") <$> vip_targets (toLowerCase a) s
              else []) ∧
    make_badgeEventId (toLowerCase a) b (clock s) ∈ sentMessages s' ∧
    clock s' = clock s ∧
    rooms s' = (if truthy b
                then list_to_set ((λ c, (c, CHAT_ROOMS.VIP))
                                    <$> vip_targets (toLowerCase a) s)
                     ∪ rooms s
                else rooms s).
Proof.
  intros Hne Hout. unfold badge_update. cbn [truthy].
  destruct (String.eqb_spec a EmptyString) as [|_]; [done|].
  cbn [negb call_toLowerCase mbind result_bind].
  unfold admitOnce. cbn [set_userBadges sentMessages clock].
  destruct (decide _) as [|_]; [done|].
  destruct (truthy b); cbn; eexists; (split; [reflexivity|]); cbn;
    (split; [set_solver|done]).
Qed.

Lemma badge_update_suppressed (uuid : string → string) (sid a : string)
    (b : jsval) (s : state) :
  a ≠ EmptyString →
  make_badgeEventId (toLowerCase a) b (clock s) ∈ sentMessages s →
  badge_update uuid sid (VStr a) b s
  = Ok (set_userBadges (badge_set (toLowerCase a) b) s, []).
Proof.
  intros Hne Hin. unfold badge_update. cbn [truthy].
  destruct (String.eqb_spec a EmptyString) as [|_]; [done|].
  cbn [negb call_toLowerCase mbind result_bind].
  by rewrite admitOnce_present.
Qed.

(** C4. Two [badge-update] events for the same address with the flag
    [true], handled one after the other at the same clock reading, both
    complete; the second emits nothing, being stopped by the fingerprint
    the first left in the window (or that was there already).  Together
    they emit at most one global [badge-update] and, for every socket,
    at most one welcome notice; a socket that gets one is connected and
    has the lower-cased address as its stored address. *)
Theorem badge_update_repeat_same_instant
    (uuid1 uuid2 : string → string) (sid1 sid2 A : string) (s : state) :
  ∃ s1 o1 s2 o2,
    badge_update uuid1 sid1 (VStr A) (VBool true) s = Ok (s1, o1) ∧
    badge_update uuid2 sid2 (VStr A) (VBool true) s1 = Ok (s2, o2) ∧
    o2 = [] ∧
    (count is_io_emit (o1 ++ o2) ≤ 1)%nat ∧
    (∀ c, (count (is_socket_emit_to c) (o1 ++ o2) ≤ 1)%nat) ∧
    (∀ c, count (is_socket_emit_to c) (o1 ++ o2) = 1%nat →
          userAddresses s !! c = Some (toLowerCase A) ∧ c ∈ sockets s).
Proof.
  destruct (decide (A = EmptyString)) as [->|Hne].
  { exists s, [], s, []. cbn. do 3 (split; [reflexivity|]).
    split; [lia|]. split; [intros _; lia|discriminate]. }
  set (fp := make_badgeEventId (toLowerCase A) (VBool true) (clock s)).
  destruct (decide (fp ∈ sentMessages s)) as [Hin|Hout].
  - set (upd := set_userBadges (badge_set (toLowerCase A) (VBool true))).
    exists (upd s), [], (upd (upd s)), [].
    rewrite !badge_update_suppressed by done.
    do 3 (split; [reflexivity|]). cbn.
    split; [lia|]. split; [intros _; lia|discriminate].
  - destruct (badge_update_admitted uuid1 sid1 A (VBool true) s Hne Hout)
      as (s1 & -> & Hin & Hc & _).
    eexists s1, _, _, []. split; [reflexivity|].
    rewrite badge_update_suppressed by (by rewrite ?Hc).
    split; [reflexivity|]. split; [reflexivity|].
    rewrite app_nil_r. cbn [truthy].
    pose proof (vip_targets_NoDup (toLowerCase A) s) as Hnd.
    split; [|split].
    + rewrite count_cons, count_welcomes_other by done. cbn. lia.
    + intros c. rewrite count_cons, count_welcomes by done. cbn.
      destruct (bool_decide _); lia.
    + intros c. rewrite count_cons, count_welcomes by done. cbn.
      destruct (bool_decide_reflect (c ∈ vip_targets (toLowerCase A) s))
        as [Hc'|]; [|discriminate].
      intros _. by apply elem_of_vip_targets.
Qed.

Lemma badge_update_repeat_same_instant_witness :
  ∃ s1 o1 s2 o2,
    badge_update (λ c, c) "s2" (VStr "0xAB") (VBool true) demo_state
    = Ok (s1, o1) ∧
    badge_update (λ c, c) "s2" (VStr "0xAB") (VBool true) s1 = Ok (s2, o2) ∧
    o2 = [] ∧
    (count is_io_emit (o1 ++ o2) ≤ 1)%nat ∧
    (∀ c, (count (is_socket_emit_to c) (o1 ++ o2) ≤ 1)%nat) ∧
    (∀ c, count (is_socket_emit_to c) (o1 ++ o2) = 1%nat →
          userAddresses demo_state !! c = Some (toLowerCase "0xAB") ∧
          c ∈ sockets demo_state).
Proof.
  apply (badge_update_repeat_same_instant (λ c, c) (λ c, c) "s2" "s2" "0xAB"
           demo_state).
Defined.

(** The scenario of the specification: after the demo session, a
    [badge-update] for [0xAB] sent twice at once gives one global
    broadcast and one welcome, to the socket that holds that address. *)
Example badge_update_twice_demo :
  emitted [ BadgeUpdate (λ c, "uuid-" +:+ c) "s2" (VStr "0xAB") (VBool true);
            BadgeUpdate (λ c, "uuid-" +:+ c) "s2" (VStr "0xAB") (VBool true) ]
          demo_state
  = [ IoEmitBadgeUpdate "0xab" (VBool true);
      SocketEmitNewMessage "s1"
        (system_message VIP_WELCOME 1700000000000 "uuid-s1" "vip") "vip" ].
Proof. vm_compute. reflexivity. Qed.

(** ** Disconnecting *)

Lemma disconnect_effects (sid : string) (reason : jsval) (s : state) :
  let s' := disconnect sid reason (transport_close sid s) in
  userBadges s' = userBadges s ∧
  sentMessages s' = sentMessages s ∧
  timers s' = timers s ∧
  rooms s' = filter (λ p : string * string, p.1 ≠ sid) (rooms s) ∧
  sockets s' = sockets s ∖ {[ sid ]} ∧
  userAddresses s'
  = (if truthy (stored_address sid s) then delete sid (userAddresses s)
     else userAddresses s) ∧
  usernames s'
  = (if truthy (default VUndefined (usernames s !! sid))
     then delete sid (usernames s) else usernames s).
Proof.
  unfold disconnect.
  change (stored_address sid (transport_close sid s))
    with (stored_address sid s).
  destruct (truthy (stored_address sid s)); cbn;
    destruct (truthy (default VUndefined (usernames s !! sid))); done.
Qed.

(** C9. A [disconnect] completes and emits nothing.  It leaves the badge
    directory as it was, so every badge lookup gives what it gave
    before; for every other socket the stored address, the stored name
    and the room memberships are as before.  What it removes belongs to
    the disconnecting socket: its stored address, and its stored name
    when that name is truthy. *)
Theorem disconnect_removes_only_own_record
    (sid : string) (reason : jsval) (s : state) :
  ∃ s',
    step (Disconnect sid reason) s = Ok (s', []) ∧
    userBadges s' = userBadges s ∧
    (∀ a, hasBadge s' a = hasBadge s a) ∧
    (∀ c, c ≠ sid →
          userAddresses s' !! c = userAddresses s !! c ∧
          usernames s' !! c = usernames s !! c ∧
          ∀ room, (c, room) ∈ rooms s' ↔ (c, room) ∈ rooms s) ∧
    (∀ a, userAddresses s !! sid = Some a → a ≠ EmptyString →
          userAddresses s' !! sid = None) ∧
    (∀ v, usernames s !! sid = Some v → truthy v = true →
          usernames s' !! sid = None).
Proof.
  eexists. split; [reflexivity|].
  destruct (disconnect_effects sid reason s) as (Hb & _ & _ & Hr & _ & Ha & Hu).
  cbv zeta in *. split; [done|]. split.
  { intros a. unfold hasBadge. by rewrite Hb. }
  split; [|split].
  - intros c Hne. rewrite Ha, Hu, Hr. split; [|split].
    + destruct (truthy (stored_address _ _)); [|done].
      by rewrite lookup_delete_ne.
    + destruct (truthy (default _ _)); [|done].
      by rewrite lookup_delete_ne.
    + intros room. rewrite elem_of_filter. cbn. tauto.
  - intros a Hs Hne. rewrite Ha. unfold stored_address. rewrite Hs. cbn.
    destruct (String.eqb_spec a EmptyString) as [|_]; [done|].
    apply lookup_delete_eq.
  - intros v Hs Ht. rewrite Hu, Hs. cbn. rewrite Ht. apply lookup_delete_eq.
Qed.

Lemma disconnect_removes_only_own_record_witness :
  ∃ s',
    step (Disconnect "s1" (VStr "transport close")) demo_state = Ok (s', []) ∧
    userBadges s' = userBadges demo_state ∧
    (∀ a, hasBadge s' a = hasBadge demo_state a) ∧
    (∀ c, c ≠ "s1" →
          userAddresses s' !! c = userAddresses demo_state !! c ∧
          usernames s' !! c = usernames demo_state !! c ∧
          ∀ room, (c, room) ∈ rooms s' ↔ (c, room) ∈ rooms demo_state) ∧
    (∀ a, userAddresses demo_state !! "s1" = Some a → a ≠ EmptyString →
          userAddresses s' !! "s1" = None) ∧
    (∀ v, usernames demo_state !! "s1" = Some v → truthy v = true →
          usernames s' !! "s1" = None).
Proof.
  apply (disconnect_removes_only_own_record "s1" (VStr "transport close")
           demo_state).
Defined.

Example disconnect_demo :
  userAddresses demo_state !! "s1" = Some "0xab" ∧
  userAddresses
    (state_after [Disconnect "s1" (VStr "transport close")] demo_state) !! "s1"
  = None ∧
  userAddresses
    (state_after [Disconnect "s1" (VStr "transport close")] demo_state) !! "s2"
  = Some "0xcd".
Proof. vm_compute. repeat split; reflexivity. Qed.

(** ** Revocation *)

Lemma lower_ascii_idem (c : ascii) : lower_ascii (lower_ascii c) = lower_ascii c.
Proof. destruct c as [[] [] [] [] [] [] [] []]; reflexivity. Qed.

Lemma toLowerCase_idem (s : string) : toLowerCase (toLowerCase s) = toLowerCase s.
Proof.
  induction s as [|c s IH]; [done|]. cbn. by rewrite lower_ascii_idem, IH.
Qed.

Lemma toLowerCase_nonempty (s : string) :
  s ≠ EmptyString → toLowerCase s ≠ EmptyString.
Proof. by destruct s. Qed.


(** A badge is granted, then revoked: the socket is still in the
    privileged room afterwards, and its next send there is refused. *)
Example revocation_demo :
  let es :=
    [ BadgeUpdate (λ c, c) "s2" (VStr "0xAB") (VBool true);
      Elapse 5;
      BadgeUpdate (λ c, c) "s2" (VStr "0xAB") (VBool false) ] in
  bool_decide (("s1", CHAT_ROOMS.VIP) ∈ rooms (state_after es demo_state))
  = true ∧
  emitted [SendMessage "u" "s1" (VStr "hi") (VStr "bob") VUndefined (VStr "vip")]
          (state_after es demo_state)
  = [refusal_notice "u" "s1" (state_after es demo_state)].
Proof. vm_compute. split; reflexivity. Qed.

(** ** Stored addresses in reachable states *)

Lemma store_address_normalized (sid : string) (a : jsval) (s s1 : state) :
  store_address sid a s = Ok s1 →
  addresses_normalized s → addresses_normalized s1.
Proof.
  unfold store_address. destruct (truthy a) eqn:Ht; [|by intros [= <-]].
  destruct a as [| | | |x]; try discriminate. cbn.
  intros [= <-] Hs c y. cbn. rewrite lookup_insert.
  destruct (decide (sid = c)) as [_|_]; [|apply Hs].
  intros [= <-]. split; [|apply toLowerCase_idem].
  apply toLowerCase_nonempty. intros ->. discriminate Ht.
Qed.

Lemma step_addresses_normalized (e : event) (s s' : state) o :
  step e s = Ok (s', o) →
  addresses_normalized s → addresses_normalized s'.
Proof.
  destruct e as [sid|sid u a c|uuid sid m u a c|uuid sid a b|sid r|d];
    cbn [step].
  - by intros [= <- <-].
  - unfold join_chat.
    destruct (normalizeChatType _) as [ct|]; [|discriminate].
    run_bind.
    destruct (store_address _ _ s) as [sa|] eqn:Hs; [|discriminate].
    run_bind. intros H Hn.
    apply (store_address_normalized _ _ _ _ Hs) in Hn.
    destruct (truthy _);
      [destruct (call_toLowerCase _); run_bind in H;
         [destruct (badge_truthy _ _)|] |];
      try discriminate H; by injection H as <- <-.
  - intros H Hn.
    destruct (send_message_outputs _ _ _ _ _ _ _ _ _ H) as (ct & sa & _ & Hs & _).
    apply (store_address_normalized _ _ _ _ Hs) in Hn.
    revert H. unfold send_message.
    destruct (normalizeChatType _) as [ct'|]; [|discriminate].
    run_bind. rewrite Hs. run_bind.
    match goal with |- mbind _ ?r = _ → _ => destruct r as [[]|] end;
      run_bind; [| |discriminate].
    + by intros [= <- <-].
    + match goal with |- context [admitOnce ?fp sa] =>
        pose proof (admitOnce_frame fp sa) as (Hu & _);
        destruct (admitOnce fp sa) as [[] s2] end;
      intros [= <- <-]; unfold addresses_normalized; cbn in Hu;
      by rewrite Hu.
  - intros H Hn.
    assert (userAddresses s' = userAddresses s) as Hu.
    { revert H. unfold badge_update. destruct (negb (truthy a)).
      { by intros [= <- <-]. }
      destruct (call_toLowerCase a) as [na|]; [|discriminate].
      run_bind.
      match goal with |- context [admitOnce ?fp ?s1] =>
        pose proof (admitOnce_frame fp s1) as (Hu & _);
        destruct (admitOnce fp s1) as [[] s2] end; cbn in Hu.
      - destruct (truthy b); intros [= <- <-]; exact Hu.
      - intros [= <- <-]; exact Hu. }
    unfold addresses_normalized. by rewrite Hu.
  - intros [= <- <-] Hn c a.
    destruct (disconnect_effects sid r s) as (_ & _ & _ & _ & _ & -> & _).
    destruct (truthy _); [|apply Hn].
    rewrite lookup_delete. destruct (decide (sid = c)); [done|apply Hn].
  - by intros [= <- <-].
Qed.

Lemma reachable_addresses_normalized (s : state) :
  reachable s → addresses_normalized s.
Proof.
  apply reachable_invariant; [apply step_addresses_normalized|].
  by intros now c a.
Qed.

(** In a reachable state a stored address is never empty, so a
    disconnect always removes the one of its socket. *)
Lemma disconnect_removes_address (sid : string) (reason : jsval) (s : state) :
  reachable s →
  userAddresses (disconnect sid reason (transport_close sid s)) !! sid = None.
Proof.
  intros Hn%reachable_addresses_normalized.
  destruct (disconnect_effects sid reason s) as (_ & _ & _ & _ & _ & -> & _).
  unfold stored_address.
  destruct (userAddresses s !! sid) as [a|] eqn:Ha; [|done].
  destruct (Hn _ _ Ha) as [Hne _]. cbn.
  destruct (String.eqb_spec a EmptyString) as [|_]; [done|].
  apply lookup_delete_eq.
Qed.

Lemma demo_state_reachable : reachable demo_state.
Proof. exists 1700000000000, demo_events. eexists. vm_compute. reflexivity. Qed.

(** The scenarios of the specification on the length of the window: the
    same message 12 seconds later is broadcast again, and a message
    handled twice at the same instant is broadcast once. *)
Example send_twice_twelve_seconds_apart :
  count is_room_emit
    (emitted
       [ SendMessage "u" "s1" (VStr "hi") (VStr "bob") VUndefined VUndefined;
         Elapse 12000;
         SendMessage "u" "s1" (VStr "hi") (VStr "bob") VUndefined VUndefined ]
       demo_state)
  = 2%nat.
Proof. vm_compute. reflexivity. Qed.

Example send_twice_same_instant :
  count is_room_emit
    (emitted
       [ SendMessage "u" "s1" (VStr "hi") (VStr "bob") VUndefined VUndefined;
         SendMessage "u" "s1" (VStr "hi") (VStr "bob") VUndefined VUndefined ]
       demo_state)
  = 1%nat.
Proof. vm_compute. reflexivity. Qed.

(** * Further properties of the handlers *)

(** ** What each handler does to the state *)

Lemma join_chat_effects (sid : string) (u a c : jsval) (s s' : state) o :
  join_chat sid u a c s = Ok (s', o) →
  ∃ ct sa,
    normalizeChatType (default_arg (VStr "normal") c) = Ok ct ∧
    store_address sid (default_arg (VStr EmptyString) a) s = Ok sa ∧
    s' = socket_join sid (getChatRoom ct) (set_usernames (<[sid := u]>) sa) ∧
    (o = [] ∨
     ∃ x, default_arg (VStr EmptyString) a = VStr x ∧ x ≠ EmptyString ∧
          badge_truthy (userBadges s) (toLowerCase x) = true ∧
          o = [IoEmitBadgeUpdate (toLowerCase x) (VBool true)]).
Proof.
  unfold join_chat.
  destruct (normalizeChatType _) as [ct|]; [|discriminate]. run_bind.
  destruct (store_address _ _ s) as [sa|] eqn:Hs; [|discriminate]. run_bind.
  intros H. exists ct, sa. do 2 (split; [reflexivity|]).
  pose proof (store_address_frame _ _ _ _ Hs) as (_ & Hb & _).
  destruct (default_arg (VStr EmptyString) a) as [| | | |x] eqn:Ha;
    cbn [truthy] in H;
    try (injection H as <- <-; split; [reflexivity|by left]).
  - destruct b; [discriminate H|].
    injection H as <- <-. split; [reflexivity|by left].
  - destruct (n =? 0); cbn [negb] in H; [|discriminate H].
    injection H as <- <-. split; [reflexivity|by left].
  - destruct (String.eqb_spec x EmptyString) as [->|Hne]; cbn [negb] in H.
    { injection H as <- <-. split; [reflexivity|by left]. }
    cbn [call_toLowerCase] in H. run_bind in H.
    destruct (badge_truthy _ _) eqn:Hbt; injection H as <- <-;
      (split; [reflexivity|]); [right|by left].
    exists x. cbn in Hbt. rewrite Hb in Hbt. done.
Qed.

Lemma send_message_effects (uuid sid : string) (m u a c : jsval)
    (s s' : state) o :
  send_message uuid sid m u a c s = Ok (s', o) →
  ∃ sa,
    store_address sid (default_arg (VStr EmptyString) a) s = Ok sa ∧
    (s' = sa ∨ ∃ fp, s' = (admitOnce fp sa).2).
Proof.
  unfold send_message.
  destruct (normalizeChatType _) as [ct|]; [|discriminate]. run_bind.
  destruct (store_address _ _ s) as [sa|] eqn:Hs; [|discriminate]. run_bind.
  intros H. exists sa. split; [reflexivity|]. revert H.
  match goal with |- mbind _ ?r = _ → _ => destruct r as [[]|] end;
    run_bind; [| |discriminate].
  - intros [= <- <-]. by left.
  - match goal with |- context [admitOnce ?fp sa] =>
      intros H; right; exists fp; destruct (admitOnce fp sa) as [[] s2] end;
    by injection H as <- <-.
Qed.

Lemma badge_update_effects (uuid : string → string) (sid : string)
    (a b : jsval) (s s' : state) o :
  badge_update uuid sid a b s = Ok (s', o) →
  (truthy a = false ∧ s' = s ∧ o = []) ∨
  ∃ x, a = VStr x ∧ x ≠ EmptyString ∧
    let sb := set_userBadges (badge_set (toLowerCase x) b) s in
    let fp := make_badgeEventId (toLowerCase x) b (clock s) in
    (fp ∈ sentMessages s ∧ s' = sb ∧ o = []) ∨
    ((fp ∉ sentMessages s) ∧
     s' = (if truthy b
           then (grant_vip uuid (toLowerCase x) (admitOnce fp sb).2).1
           else (admitOnce fp sb).2) ∧
     o = IoEmitBadgeUpdate (toLowerCase x) b ::
         (if truthy b
          then (grant_vip uuid (toLowerCase x) (admitOnce fp sb).2).2
          else [])).
Proof.
  unfold badge_update. destruct (truthy a) eqn:Ht; cbn [negb].
  2: { intros [= <- <-]. by left. }
  destruct a as [| | | |x]; try discriminate.
  cbn [call_toLowerCase]. run_bind. intros H. right. exists x.
  split; [reflexivity|]. split; [by intros ->|]. cbv zeta.
  change (clock (set_userBadges (badge_set (toLowerCase x) b) s))
    with (clock s) in H.
  set (fp := make_badgeEventId (toLowerCase x) b (clock s)) in *.
  set (sb := set_userBadges (badge_set (toLowerCase x) b) s) in *.
  destruct (decide (fp ∈ sentMessages s)) as [Hin|Hout].
  - left. rewrite admitOnce_present in H by done. by injection H as <- <-.
  - right. split; [done|].
    assert ((admitOnce fp sb).1 = true) as Hadm.
    { rewrite admitOnce_fst. by apply bool_decide_eq_true_2. }
    destruct (admitOnce fp sb) as [adm s2]. cbn in Hadm. subst adm. cbn [snd].
    destruct (truthy b).
    + destruct (grant_vip _ _ s2) as [s3 w]. by injection H as <- <-.
    + by injection H as <- <-.
Qed.

(** ** Room kinds *)

(** X1. Normalization ignores letter case, and it is a retraction onto
    the two tags the server itself emits: the text of a normalized kind
    ([normal] or [vip]), sent back as a room parameter, normalizes to
    that same kind, so whatever normalizes once normalizes to the same
    room again from the server's own tag. *)
Theorem normalizeChatType_canonical :
  (∀ s : string,
     normalizeChatType (VStr (toLowerCase s)) = normalizeChatType (VStr s)) ∧
  (∀ k : chat_type, normalizeChatType (VStr (chat_type_str k)) = Ok k) ∧
  (∀ (v : jsval) (k : chat_type),
     normalizeChatType v = Ok k →
     normalizeChatType (VStr (chat_type_str k)) = normalizeChatType v).
Proof.
  split; [|split].
  - intros s. unfold normalizeChatType. cbn [truthy call_toLowerCase].
    rewrite toLowerCase_idem.
    destruct s as [|c s]; reflexivity.
  - by intros [].
  - intros v k ->. by destruct k.
Qed.

Lemma normalizeChatType_canonical_witness :
  normalizeChatType (VStr (chat_type_str Vip)) = normalizeChatType (VStr "ViP").
Proof.
  apply (proj2 (proj2 normalizeChatType_canonical) (VStr "ViP") Vip).
  reflexivity.
Defined.

(** ** Stored addresses *)

(** X2. In every reachable state a stored address is a non-empty
    lower-case string.  So wherever a handler reads
    [userAddresses[socket.id] || address] for a socket that has a stored
    address, it gets the stored one, never the address of the event. *)
Theorem stored_addresses_lowercase (s : state) (c a : string) (v : jsval) :
  reachable s →
  userAddresses s !! c = Some a →
  a ≠ EmptyString ∧ toLowerCase a = a ∧ effective_address c v s = VStr a.
Proof.
  intros Hr Hc.
  assert (addresses_normalized s) as Hn.
  { revert Hr. apply reachable_invariant; [apply step_addresses_normalized|].
    by intros now c' a'. }
  destruct (Hn c a Hc) as [Hne Hlow]. split; [done|]. split; [done|].
  unfold effective_address, js_or, stored_address. rewrite Hc. cbn.
  by destruct (String.eqb_spec a EmptyString).
Qed.

Lemma stored_addresses_lowercase_witness :
  "0xab" ≠ EmptyString ∧ toLowerCase "0xab" = "0xab" ∧
  effective_address "s1" (VStr "0xFF") demo_state = VStr "0xab".
Proof.
  apply (stored_addresses_lowercase demo_state "s1" "0xab" (VStr "0xFF")).
  - exists 1700000000000, demo_events. eexists. vm_compute. reflexivity.
  - vm_compute. reflexivity.
Defined.

(** ** The window in reachable states *)

(** X3. In every reachable state the window and the pending expiries
    agree: a fingerprint is in [sentMessages] exactly when a deletion of
    it is pending, there is only one such deletion per fingerprint, and
    it is due later than now and at most 10 seconds from now. *)
Theorem window_matches_pending_expiries (s : state) (fp : string) :
  reachable s →
  (fp ∈ sentMessages s ↔ ∃ due, (due, fp) ∈ timers s) ∧
  (∀ due due', (due, fp) ∈ timers s → (due', fp) ∈ timers s → due = due') ∧
  (∀ due, (due, fp) ∈ timers s → clock s < due ≤ clock s + 10000).
Proof.
  intros Hr.
  assert (window_consistent s) as (Hnd & Hiff & Hb).
  { revert Hr. apply reachable_invariant;
      [apply step_window_consistent | apply window_consistent_initial]. }
  split; [|split].
  - rewrite Hiff, list_elem_of_fmap. split.
    + intros ([due fp'] & -> & Hin). by exists due.
    + intros [due Hin]. by exists (due, fp).
  - intros due due' H1 H2. by eapply NoDup_snd_unique.
  - intros due Hin. by apply Hb in Hin.
Qed.

Lemma window_matches_pending_expiries_witness :
  ("m" ∈ sentMessages demo_state ↔ ∃ due, (due, "m") ∈ timers demo_state) ∧
  (∀ due due', (due, "m") ∈ timers demo_state →
               (due', "m") ∈ timers demo_state → due = due') ∧
  (∀ due, (due, "m") ∈ timers demo_state →
          clock demo_state < due ≤ clock demo_state + 10000).
Proof.
  apply (window_matches_pending_expiries demo_state "m").
  exists 1700000000000, demo_events. eexists. vm_compute. reflexivity.
Defined.

(** X4. Nothing stays in the window longer than 10 seconds: from any
    reachable state, once 10 seconds or more go by without an event, the
    window is empty and no deletion is pending. *)
Theorem window_empties_after_retention (s : state) (d : Z) :
  reachable s →
  10000 ≤ d →
  sentMessages (advance d s) = ∅ ∧ timers (advance d s) = [].
Proof.
  intros Hr Hd.
  assert (window_consistent s) as (Hnd & Hiff & Hb).
  { revert Hr. apply reachable_invariant;
      [apply step_window_consistent | apply window_consistent_initial]. }
  assert (∀ t, t ∈ timers s → t.1 ≤ clock s + Z.max 0 d) as Hdue.
  { intros t Ht%Hb. unfold RETENTION in Ht. lia. }
  unfold advance. cbn. split.
  - apply set_eq. intros fp. rewrite elem_of_difference, elem_of_list_to_set.
    split; [|by intros ?%not_elem_of_empty]. intros [Hin Hnf]. destruct Hnf.
    apply Hiff, list_elem_of_fmap in Hin as ([due fp'] & -> & Hin).
    apply list_elem_of_fmap. exists (due, fp'). split; [done|].
    apply list_elem_of_filter. split; [by apply Hdue|done].
  - revert Hdue. generalize (timers s) (clock s + Z.max 0 d).
    intros l c. induction l as [|t l IH]; intros Hdue; [done|].
    rewrite filter_cons. destruct (decide _) as [Hlt|_].
    + specialize (Hdue t (list_elem_of_here _ _)). lia.
    + apply IH. intros t' Ht'. apply Hdue. by right.
Qed.

Lemma window_empties_after_retention_witness :
  sentMessages
    (advance 10000
       (state_after
          [SendMessage "u" "s1" (VStr "hi") (VStr "bob") VUndefined VUndefined]
          demo_state)) = ∅ ∧
  timers
    (advance 10000
       (state_after
          [SendMessage "u" "s1" (VStr "hi") (VStr "bob") VUndefined VUndefined]
          demo_state)) = [].
Proof.
  apply (window_empties_after_retention
           (state_after
              [SendMessage "u" "s1" (VStr "hi") (VStr "bob") VUndefined
                 VUndefined] demo_state) 10000); [|lia].
  exists 1700000000000,
    (demo_events ++
     [SendMessage "u" "s1" (VStr "hi") (VStr "bob") VUndefined VUndefined])%list.
  eexists. vm_compute. reflexivity.
Defined.

(** ** Who can change what *)

Lemma step_keeps_badges (e : event) (s s' : state) o :
  step e s = Ok (s', o) → is_badge_update e = false →
  userBadges s' = userBadges s.
Proof.
  intros H He.
  destruct e as [sid|sid u a k|uuid sid m u a k|uuid sid a b|sid r|d];
    cbn [step] in H; try discriminate He.
  - by injection H as <- <-.
  - apply join_chat_effects in H as (ct & sa & _ & Hs & -> & _).
    apply store_address_frame in Hs as (_ & Hb & _). exact Hb.
  - apply send_message_effects in H as (sa & Hs & Hs').
    apply store_address_frame in Hs as (_ & <- & _).
    destruct Hs' as [->|[fp ->]]; [done|].
    by destruct (admitOnce_frame fp sa) as (_ & _ & -> & _).
  - injection H as <- <-.
    by destruct (disconnect_effects sid r s) as (-> & _).
  - by injection H as <- <-.
Qed.

(** X5. An event of one socket never changes the stored address or the
    stored name of another socket; a timer running changes none. *)
Theorem identity_records_isolated (e : event) (s s' : state) o (c : string) :
  step e s = Ok (s', o) →
  socket_of e ≠ Some c →
  userAddresses s' !! c = userAddresses s !! c ∧
  usernames s' !! c = usernames s !! c.
Proof.
  destruct e as [sid|sid u a k|uuid sid m u a k|uuid sid a b|sid r|d];
    cbn [step socket_of]; intros H Hc.
  - by injection H as <- <-.
  - apply join_chat_effects in H as (ct & sa & _ & Hs & -> & _).
    apply store_address_frame in Hs as (Hu & _ & _ & _ & _ & _ & _ & Ha).
    cbn. rewrite Ha, Hu. assert (sid ≠ c) by congruence.
    rewrite lookup_insert_ne by done. split; [|done].
    destruct (truthy _); [by rewrite lookup_insert_ne|done].
  - apply send_message_effects in H as (sa & Hs & Hs').
    apply store_address_frame in Hs as (Hu & _ & _ & _ & _ & _ & _ & Ha).
    assert (sid ≠ c) by congruence.
    assert (userAddresses s' = userAddresses sa ∧ usernames s' = usernames sa)
      as [-> ->].
    { destruct Hs' as [->|[fp ->]]; [done|].
      by destruct (admitOnce_frame fp sa) as (-> & -> & _). }
    rewrite Ha, Hu. split; [|done].
    destruct (truthy _); [by rewrite lookup_insert_ne|done].
  - apply badge_update_effects in H
      as [(_ & -> & _)|(x & _ & _ & [(_ & -> & _)|(_ & -> & _)])]; [done..|].
    destruct (truthy b); cbn;
      by destruct (admitOnce_frame
                     (make_badgeEventId (toLowerCase x) b (clock s))
                     (set_userBadges (badge_set (toLowerCase x) b) s))
        as (-> & -> & _).
  - injection H as <- <-. assert (sid ≠ c) by congruence.
    destruct (disconnect_effects sid r s) as (_ & _ & _ & _ & _ & -> & ->).
    split.
    + destruct (truthy (stored_address _ _)); [by rewrite lookup_delete_ne|done].
    + destruct (truthy (default _ _)); [by rewrite lookup_delete_ne|done].
  - by injection H as <- <-.
Qed.

Lemma identity_records_isolated_witness :
  userAddresses
    (state_after [JoinChat "s2" (VStr "mallory") (VStr "0xAB") (VStr "vip")]
       demo_state) !! "s1"
  = userAddresses demo_state !! "s1" ∧
  usernames
    (state_after [JoinChat "s2" (VStr "mallory") (VStr "0xAB") (VStr "vip")]
       demo_state) !! "s1"
  = usernames demo_state !! "s1".
Proof.
  apply (identity_records_isolated
           (JoinChat "s2" (VStr "mallory") (VStr "0xAB") (VStr "vip"))
           demo_state _ [] "s1").
  - vm_compute. reflexivity.
  - discriminate.
Defined.

(** X6. The badge directory is written by [badge-update] alone: after
    any other event every badge lookup gives what it gave before. *)
Theorem badges_change_only_by_badge_update (e : event) (s s' : state) o :
  step e s = Ok (s', o) →
  is_badge_update e = false →
  userBadges s' = userBadges s ∧ ∀ a, hasBadge s' a = hasBadge s a.
Proof.
  intros H He.
  pose proof (step_keeps_badges _ _ _ _ H He) as Hb.
  split; [done|]. intros a. unfold hasBadge. by rewrite Hb.
Qed.

Lemma badges_change_only_by_badge_update_witness :
  userBadges
    (state_after
       [SendMessage "u" "s1" (VStr "hi") (VStr "bob") (VStr "0xEE") (VStr "vip")]
       demo_state)
  = userBadges demo_state ∧
  ∀ a,
    hasBadge
      (state_after
         [SendMessage "u" "s1" (VStr "hi") (VStr "bob") (VStr "0xEE")
            (VStr "vip")] demo_state) a
    = hasBadge demo_state a.
Proof.
  eapply (badges_change_only_by_badge_update
           (SendMessage "u" "s1" (VStr "hi") (VStr "bob") (VStr "0xEE")
              (VStr "vip")) demo_state).
  - vm_compute. reflexivity.
  - reflexivity.
Defined.

(** ** The badge directory *)







(** ** Room membership *)

Lemma vip_targets_ext (a : string) (s1 s2 : state) :
  userAddresses s1 = userAddresses s2 → sockets s1 = sockets s2 →
  vip_targets a s1 = vip_targets a s2.
Proof. unfold vip_targets. by intros -> ->. Qed.

Lemma elem_of_granted (c : string) (l : list string) :
  (c, CHAT_ROOMS.VIP) ∈@{gset (string * string)}
    list_to_set ((λ c', (c', CHAT_ROOMS.VIP)) <$> l) ↔ c ∈ l.
Proof.
  rewrite elem_of_list_to_set, list_elem_of_fmap. split.
  - by intros (c' & [= ->] & Hin).
  - intros Hin. by exists c.
Qed.

(** What a [badge-update] that completes does to the rooms. *)
Lemma badge_update_rooms (uuid : string → string) (sid : string)
    (a b : jsval) (s s' : state) o :
  badge_update uuid sid a b s = Ok (s', o) →
  rooms s' = rooms s ∨
  ∃ x, a = VStr x ∧ truthy b = true ∧
       rooms s' = list_to_set ((λ c, (c, CHAT_ROOMS.VIP))
                                 <$> vip_targets (toLowerCase x) s)
                  ∪ rooms s.
Proof.
  intros H. apply badge_update_effects in H
    as [(_ & -> & _)|(x & -> & _ & [(_ & -> & _)|(_ & -> & _)])];
    [by left..|].
  set (fp := make_badgeEventId (toLowerCase x) b (clock s)).
  set (sb := set_userBadges (badge_set (toLowerCase x) b) s).
  destruct (admitOnce_frame fp sb) as (Hu & _ & _ & Hr & Hk & _).
  destruct (truthy b); [right|by left].
  exists x. split; [done|]. split; [done|]. cbn.
  by rewrite Hr, (vip_targets_ext _ _ s Hu Hk).
Qed.

(** X9. Handlers only ever add room memberships: after any event other
    than a disconnect every membership is still there.  A new one comes
    from the socket's own [join-chat], for the room its request names,
    or from the grant loop of a [badge-update] with a truthy flag, which
    puts into [chat-vip] connected sockets whose stored address is the
    lower-cased address of the event.  Sending a message and expiries
    add none. *)
Theorem membership_added_only_by_join_or_grant
    (e : event) (s s' : state) o :
  step e s = Ok (s', o) →
  is_disconnect e = false →
  rooms s ⊆ rooms s' ∧
  ∀ c room,
    (c, room) ∈ rooms s' → (c, room) ∉ rooms s →
    match e with
    | JoinChat sid _ _ k =>
        c = sid ∧
        ∃ kind, normalizeChatType (default_arg (VStr "normal") k) = Ok kind ∧
                room = getChatRoom kind
    | BadgeUpdate _ _ a b =>
        room = CHAT_ROOMS.VIP ∧ truthy b = true ∧ c ∈ sockets s ∧
        ∃ x, a = VStr x ∧ userAddresses s !! c = Some (toLowerCase x)
    | Connection _ => True
    | _ => False
    end.
Proof.
  destruct e as [sid|sid u a k|uuid sid m u a k|uuid sid a b|sid r|d];
    cbn [step]; intros H He; try discriminate He.
  - injection H as <- <-. by split.
  - apply join_chat_effects in H as (ct & sa & Hn & Hs & -> & _).
    apply store_address_frame in Hs as (_ & _ & _ & _ & Hr & _).
    cbn. rewrite Hr. split; [apply union_subseteq_r|].
    intros c room [[= -> ->]%elem_of_singleton|Hin]%elem_of_union Hout;
      [|done].
    split; [done|]. by exists ct.
  - apply send_message_effects in H as (sa & Hs & Hs').
    apply store_address_frame in Hs as (_ & _ & _ & _ & Hr & _).
    assert (rooms s' = rooms s) as ->; [|by split].
    destruct Hs' as [->|[fp ->]]; [done|].
    by destruct (admitOnce_frame fp sa) as (_ & _ & _ & -> & _).
  - apply badge_update_rooms in H as [->|(x & -> & Hb & ->)]; [by split|].
    split; [apply union_subseteq_r|].
    intros c room [Hin|Hin]%elem_of_union Hout; [|done].
    apply elem_of_list_to_set, list_elem_of_fmap in Hin
      as (c' & [= -> ->] & Hin).
    apply elem_of_vip_targets in Hin as [Hc Hl].
    do 3 (split; [done|]). by exists x.
  - injection H as <- <-. by split.
Qed.

Lemma membership_added_only_by_join_or_grant_witness :
  rooms demo_state
  ⊆ rooms (state_after
             [BadgeUpdate (λ c, c) "s2" (VStr "0xAB") (VBool true)] demo_state) ∧
  ∀ c room,
    (c, room) ∈ rooms (state_after
                         [BadgeUpdate (λ c, c) "s2" (VStr "0xAB") (VBool true)]
                         demo_state) →
    (c, room) ∉ rooms demo_state →
    room = CHAT_ROOMS.VIP ∧ truthy (VBool true) = true ∧
    c ∈ sockets demo_state ∧
    ∃ x, VStr "0xAB" = VStr x ∧
         userAddresses demo_state !! c = Some (toLowerCase x).
Proof.
  eapply (membership_added_only_by_join_or_grant
            (BadgeUpdate (λ c, c) "s2" (VStr "0xAB") (VBool true)) demo_state).
  - vm_compute. reflexivity.
  - reflexivity.
Defined.

(** X10. A [badge-update] with a truthy flag and a non-empty address
    whose fingerprint is not in the window emits the global
    [badge-update] first and once, then one welcome for every connected
    socket whose stored address is the lower-cased address and for no
    other socket; every welcome is tagged [vip]; and afterwards exactly
    those sockets have been added to [chat-vip]. *)
Theorem grant_reaches_every_socket_of_address
    (uuid : string → string) (sid A : string) (v : jsval) (s : state) :
  A ≠ EmptyString →
  truthy v = true →
  make_badgeEventId (toLowerCase A) v (clock s) ∉ sentMessages s →
  ∃ s' welcomes,
    badge_update uuid sid (VStr A) v s
    = Ok (s', IoEmitBadgeUpdate (toLowerCase A) v :: welcomes) ∧
    count is_io_emit welcomes = 0%nat ∧
    count is_room_emit welcomes = 0%nat ∧
    (∀ c, count (is_socket_emit_to c) welcomes
          = if bool_decide (c ∈ sockets s ∧
                            userAddresses s !! c = Some (toLowerCase A))
            then 1%nat else 0%nat) ∧
    (∀ c m tag, SocketEmitNewMessage c m tag ∈ welcomes →
                tag = "vip" ∧ msg_chatType m = "vip" ∧
                msg_message m = VStr VIP_WELCOME ∧ msg_id m = VStr "system") ∧
    (∀ c, (c, CHAT_ROOMS.VIP) ∈ rooms s' ↔
          (c, CHAT_ROOMS.VIP) ∈ rooms s ∨
          (c ∈ sockets s ∧ userAddresses s !! c = Some (toLowerCase A))).
Proof.
  intros Hne Hv Hout.
  destruct (badge_update_admitted uuid sid A v s Hne Hout)
    as (s' & H & _ & _ & Hr).
  rewrite Hv in H, Hr. eexists s', _. split; [exact H|].
  split; [by apply count_welcomes_other|].
  split; [by apply count_welcomes_other|].
  split; [|split].
  - intros c. rewrite count_welcomes by apply vip_targets_NoDup.
    apply (f_equal (λ b : bool, if b then 1%nat else 0%nat)).
    apply bool_decide_ext. rewrite elem_of_vip_targets. tauto.
  - intros c m tag (c' & [= -> -> ->] & _)%list_elem_of_fmap. done.
  - intros c. rewrite Hr, elem_of_union, elem_of_granted, elem_of_vip_targets.
    tauto.
Qed.

Lemma grant_reaches_every_socket_of_address_witness :
  ∃ s' welcomes,
    badge_update (λ c, c) "s2" (VStr "0xAB") (VBool true) demo_state
    = Ok (s', IoEmitBadgeUpdate (toLowerCase "0xAB") (VBool true) :: welcomes) ∧
    count is_io_emit welcomes = 0%nat ∧
    count is_room_emit welcomes = 0%nat ∧
    (∀ c, count (is_socket_emit_to c) welcomes
          = if bool_decide (c ∈ sockets demo_state ∧
                            userAddresses demo_state !! c
                            = Some (toLowerCase "0xAB"))
            then 1%nat else 0%nat) ∧
    (∀ c m tag, SocketEmitNewMessage c m tag ∈ welcomes →
                tag = "vip" ∧ msg_chatType m = "vip" ∧
                msg_message m = VStr VIP_WELCOME ∧ msg_id m = VStr "system") ∧
    (∀ c, (c, CHAT_ROOMS.VIP) ∈ rooms s' ↔
          (c, CHAT_ROOMS.VIP) ∈ rooms demo_state ∨
          (c ∈ sockets demo_state ∧
           userAddresses demo_state !! c = Some (toLowerCase "0xAB"))).
Proof.
  apply (grant_reaches_every_socket_of_address (λ c, c) "s2" "0xAB"
           (VBool true) demo_state).
  - discriminate.
  - reflexivity.
  - assert (sentMessages demo_state = ∅) as -> by (vm_compute; reflexivity).
    apply not_elem_of_empty.
Defined.

(** ** Badges across reconnects *)





(** ** What a broadcast carries *)

Lemma store_address_truthy (sid : string) (a : jsval) (s sa : state) :
  store_address sid a s = Ok sa → truthy a = true →
  ∃ y, a = VStr y ∧ y ≠ EmptyString ∧
       userAddresses sa !! sid = Some (toLowerCase y).
Proof.
  unfold store_address. intros H Ht. rewrite Ht in H.
  destruct a as [| | | |y]; try discriminate H.
  cbn in H. injection H as <-. exists y. split; [done|]. split.
  - intros ->. discriminate Ht.
  - cbn. apply lookup_insert_eq.
Qed.

(** The one broadcast of a [send-message], when there is one. *)
Lemma send_message_broadcast (uuid sid : string) (m u a k : jsval)
    (s s' : state) o (e : emit) :
  send_message uuid sid m u a k s = Ok (s', o) →
  e ∈ o → is_room_emit e = true →
  ∃ kind sa,
    normalizeChatType (default_arg (VStr "normal") k) = Ok kind ∧
    store_address sid (default_arg (VStr EmptyString) a) s = Ok sa ∧
    (kind = Vip → sender_hasBadge sid a s = Ok true) ∧
    let sender :=
      js_or (effective_address sid (default_arg (VStr EmptyString) a) sa)
            (VStr sid) in
    let fp := make_messageId sender (toISOString (clock s)) m kind in
    (fp ∉ sentMessages s) ∧
    s' = (admitOnce fp sa).2 ∧
    o = [e] ∧
    e = RoomEmitNewMessage (getChatRoom kind)
          (MessageObj sender m u (toISOString (clock s)) fp
                      (chat_type_str kind))
          (chat_type_str kind).
Proof.
  unfold send_message, sender_hasBadge.
  destruct (normalizeChatType _) as [kind|]; [|discriminate]. run_bind.
  destruct (store_address _ _ s) as [sa|] eqn:Hs; [|discriminate]. run_bind.
  pose proof (store_address_frame _ _ _ _ Hs) as (_&_&Hm&_&_&_&Hc&_).
  intros H He Hroom. exists kind, sa. do 2 (split; [reflexivity|]).
  rewrite <- Hc, <- Hm. cbv zeta. revert H.
  destruct (decide (kind = Vip)) as [->|Hk].
  - destruct (hasBadge sa _) as [[]|]; run_bind; cbn [negb];
      [| |discriminate].
    + set (fp := make_messageId _ _ _ _).
      pose proof (admitOnce_fst fp sa) as Hf. unfold admitOnce in *.
      destruct (decide (fp ∈ sentMessages sa)) as [Hin|Hout]; cbn in Hf |- *;
        intros [= <- <-]; [by apply elem_of_nil in He|].
      apply list_elem_of_singleton in He as ->. done.
    + intros [= <- <-]. apply list_elem_of_singleton in He as ->.
      discriminate Hroom.
  - run_bind. set (fp := make_messageId _ _ _ _).
    unfold admitOnce.
    destruct (decide (fp ∈ sentMessages sa)) as [Hin|Hout]; cbn;
      intros [= <- <-]; [by apply elem_of_nil in He|].
    apply list_elem_of_singleton in He as ->. done.
Qed.

(** X12. When a [send-message] broadcasts, it broadcasts once, to the
    room its normalized kind names and with that kind as tag; the
    message carries the text and name as sent, the server time stamp,
    and a fingerprint that was not in the window before and is
    afterwards; its [id] is a string, the stored address of the sending
    socket if it then has a non-empty one and its socket id otherwise;
    and a broadcast to [chat-vip] only happens when the badge check of
    the sender said yes. *)
Theorem room_broadcast_shape (uuid sid : string) (m u a k : jsval)
    (s s' : state) o (room tag : string) (msg : message_obj) :
  send_message uuid sid m u a k s = Ok (s', o) →
  RoomEmitNewMessage room msg tag ∈ o →
  o = [RoomEmitNewMessage room msg tag] ∧
  (∃ kind,
     normalizeChatType (default_arg (VStr "normal") k) = Ok kind ∧
     room = getChatRoom kind ∧ tag = chat_type_str kind ∧
     msg_chatType msg = chat_type_str kind) ∧
  msg_message msg = m ∧
  msg_username msg = u ∧
  msg_timestamp msg = toISOString (clock s) ∧
  (msg_messageId msg ∉ sentMessages s) ∧
  msg_messageId msg ∈ sentMessages s' ∧
  msg_id msg
  = VStr (match userAddresses s' !! sid with
          | Some x => if String.eqb x EmptyString then sid else x
          | None => sid
          end) ∧
  (room = CHAT_ROOMS.VIP → sender_hasBadge sid a s = Ok true).
Proof.
  intros H Hin.
  destruct (send_message_broadcast _ _ _ _ _ _ _ _ _ _ H Hin eq_refl)
    as (kind & sa & Hn & Hs & Hvip & Hout & -> & -> & [= -> -> ->]).
  split; [done|]. split; [by exists kind|]. do 3 (split; [done|]).
  split; [done|]. split; [apply admitOnce_in|]. split.
  - destruct (admitOnce_frame
                (make_messageId
                   (js_or (effective_address sid
                             (default_arg (VStr EmptyString) a) sa) (VStr sid))
                   (toISOString (clock s)) m kind) sa) as (-> & _).
    cbn [msg_id]. unfold effective_address, js_or, stored_address.
    destruct (userAddresses sa !! sid) as [x|] eqn:Hx; cbn [truthy].
    + destruct (String.eqb_spec x EmptyString) as [->|Hxne]; cbn [negb].
      2: { cbn [truthy]. destruct (String.eqb_spec x EmptyString); done. }
      destruct (truthy (default_arg (VStr EmptyString) a)) eqn:Ht; [|done].
      destruct (store_address_truthy _ _ _ _ Hs Ht) as (y & _ & Hy & Hl).
      rewrite Hl in Hx. injection Hx as Hx. by destruct y.
    + destruct (truthy (default_arg (VStr EmptyString) a)) eqn:Ht; [|done].
      destruct (store_address_truthy _ _ _ _ Hs Ht) as (y & _ & Hy & Hl).
      by rewrite Hl in Hx.
  - intros Hr. apply Hvip. by destruct kind.
Qed.

Lemma room_broadcast_shape_witness :
  let o :=
    emitted [SendMessage "u" "s1" (VStr "hi") (VStr "bob") VUndefined VUndefined]
            demo_state in
  let s' :=
    state_after
      [SendMessage "u" "s1" (VStr "hi") (VStr "bob") VUndefined VUndefined]
      demo_state in
  let msg :=
    MessageObj (VStr "0xab") (VStr "hi") (VStr "bob")
      "2023-11-14T22:13:20.000Z" "0xab-2023-11-14T22:13:20.000Z-hi-normal"
      "normal" in
  o = [RoomEmitNewMessage "chat-normal" msg "normal"] ∧
  (∃ kind,
     normalizeChatType (default_arg (VStr "normal") VUndefined) = Ok kind ∧
     "chat-normal" = getChatRoom kind ∧ "normal" = chat_type_str kind ∧
     msg_chatType msg = chat_type_str kind) ∧
  msg_message msg = VStr "hi" ∧
  msg_username msg = VStr "bob" ∧
  msg_timestamp msg = toISOString (clock demo_state) ∧
  (msg_messageId msg ∉ sentMessages demo_state) ∧
  msg_messageId msg ∈ sentMessages s' ∧
  msg_id msg
  = VStr (match userAddresses s' !! "s1" with
          | Some x => if String.eqb x EmptyString then "s1" else x
          | None => "s1"
          end) ∧
  ("chat-normal" = CHAT_ROOMS.VIP →
   sender_hasBadge "s1" VUndefined demo_state = Ok true).
Proof.
  cbv zeta.
  eapply (room_broadcast_shape "u" "s1" (VStr "hi") (VStr "bob") VUndefined
            VUndefined demo_state).
  - vm_compute. reflexivity.
  - vm_compute. apply list_elem_of_here.
Defined.



(** ** Disconnecting, edge cases *)

(** X14. The [disconnect] listener on a socket without records changes
    nothing, and running it twice is the same as running it once.  It
    tests the stored name for truthiness before deleting it, so the name
    a socket joined with stays in [usernames] after its disconnect when
    that name is falsy (an empty string, a missing name). *)
Theorem disconnect_edge_cases (sid : string) (reason : jsval) (s : state) :
  (userAddresses s !! sid = None → usernames s !! sid = None →
   disconnect sid reason s = s) ∧
  disconnect sid reason (disconnect sid reason s) = disconnect sid reason s ∧
  (∀ u a k s1 o,
     truthy u = false →
     join_chat sid u a k s = Ok (s1, o) →
     usernames (disconnect sid reason (transport_close sid s1)) !! sid
     = Some u).
Proof.
  split; [|split].
  - intros Ha Hu. unfold disconnect, stored_address. rewrite Ha. cbn.
    by rewrite Hu.
  - unfold disconnect, stored_address, set_userAddresses, set_usernames.
    destruct s as [ua un ub sm tm rm sk ck]. cbn.
    destruct (ua !! sid) as [x|] eqn:Hx; cbn;
      [destruct (negb (String.eqb x EmptyString)) eqn:Hxe|]; cbn;
      (destruct (un !! sid) as [v|] eqn:Hv; cbn;
       [destruct (truthy v) eqn:Ht|]); cbn;
      rewrite ?lookup_delete_eq, ?Hx, ?Hv; cbn;
      rewrite ?Hxe, ?Ht; cbn;
      rewrite ?lookup_delete_eq, ?Hx, ?Hv; cbn; rewrite ?Hxe, ?Ht; cbn;
      rewrite ?delete_delete_eq; reflexivity.
  - intros u a k s1 o Hu Hj.
    apply join_chat_effects in Hj as (ct & sa & _ & _ & -> & _).
    destruct (disconnect_effects sid reason
                (socket_join sid (getChatRoom ct)
                   (set_usernames (<[sid := u]>) sa)))
      as (_ & _ & _ & _ & _ & _ & ->).
    cbn. rewrite lookup_insert_eq. cbn. rewrite Hu. apply lookup_insert_eq.
Qed.

Lemma disconnect_edge_cases_witness :
  (userAddresses demo_state !! "s9" = None →
   usernames demo_state !! "s9" = None →
   disconnect "s9" VUndefined demo_state = demo_state) ∧
  disconnect "s9" VUndefined (disconnect "s9" VUndefined demo_state)
  = disconnect "s9" VUndefined demo_state ∧
  (∀ u a k s1 o,
     truthy u = false →
     join_chat "s9" u a k demo_state = Ok (s1, o) →
     usernames (disconnect "s9" VUndefined (transport_close "s9" s1)) !! "s9"
     = Some u).
Proof. apply (disconnect_edge_cases "s9" VUndefined demo_state). Defined.

(** ** Outbound badge updates *)



(** ** Time stamps and fingerprints *)

Lemma forall_range_spec (f : Z → bool) (lo : Z) (n : positive) :
  forall_range f lo n = true → ∀ z, lo ≤ z < lo + Z.pos n → f z = true.
Proof.
  unfold forall_range.
  set (g := λ p : bool * Z, (p.1 && f p.2, p.2 + 1)).
  assert (∀ k, (Pos.iter g (true, lo) k).2 = lo + Z.pos k ∧
               ((Pos.iter g (true, lo) k).1 = true →
                ∀ z, lo ≤ z < lo + Z.pos k → f z = true)) as H.
  { induction k as [|k [IH1 IH2]] using Pos.peano_ind.
    - unfold g. cbn. split; [lia|]. intros Hf z Hz.
      assert (z = lo) as -> by lia. done.
    - rewrite Pos.iter_succ. unfold g at 1. unfold g at 2. cbn [fst snd].
      rewrite IH1. split; [lia|].
      intros [Hk Hf]%andb_prop z Hz.
      destruct (decide (z = lo + Z.pos k)) as [->|]; [by rewrite <- IH1|].
      apply IH2; [done|lia]. }
  apply H.
Qed.

Lemma era_days_ok (doe : Z) : 0 ≤ doe < 146097 → era_day_ok doe = true.
Proof.
  apply (forall_range_spec era_day_ok 0 146097). vm_compute. reflexivity.
Qed.

Lemma civil_from_days_inv (days y m d : Z) :
  civil_from_days days = (y, m, d) →
  1 ≤ m ≤ 12 ∧ 1 ≤ d ≤ 31 ∧ days_from_civil y m d = days ∧
  400 * ((days + 719468) / 146097) ≤ y ≤ 400 * ((days + 719468) / 146097) + 400.
Proof.
  unfold civil_from_days.
  set (z := days + 719468). set (era := z / 146097).
  set (doe := z - era * 146097).
  assert (0 ≤ doe < 146097) as Hdoe.
  { unfold doe, era. pose proof (Z.mod_pos_bound z 146097 eq_refl).
    rewrite Z.mod_eq in H by done. lia. }
  pose proof (era_days_ok doe Hdoe) as Hok. unfold era_day_ok in Hok.
  cbv zeta in *.
  set (yoe := (doe - doe / 1460 + doe / 36524 - doe / 146096) / 365) in *.
  set (doy := doe - (365 * yoe + yoe / 4 - yoe / 100)) in *.
  set (mp := (5 * doy + 2) / 153) in *.
  set (dd := doy - (153 * mp + 2) / 5 + 1) in *.
  set (mm := if mp <? 10 then mp + 3 else mp - 9) in *.
  repeat (apply andb_prop in Hok as [Hok ?]).
  intros [= <- <- <-].
  split; [lia|]. split; [lia|]. split.
  - unfold days_from_civil.
    assert ((if mm <=? 2 then yoe + era * 400 + (if mm <=? 2 then 1 else 0) - 1
             else yoe + era * 400 + (if mm <=? 2 then 1 else 0))
            = yoe + era * 400) as -> by (destruct (mm <=? 2); lia).
    assert ((yoe + era * 400) / 400 = era) as ->.
    { rewrite Z.div_add by done. rewrite Z.div_small; lia. }
    replace (yoe + era * 400 - era * 400) with yoe by lia.
    apply Z.eqb_eq in H.
    assert (doe = days + 719468 - era * 146097) as Hd by reflexivity.
    lia.
  - fold era. destruct (mm <=? 2); lia.
Qed.

Lemma string_length_app (s1 s2 : string) :
  String.length (s1 +:+ s2) = (String.length s1 + String.length s2)%nat.
Proof. induction s1 as [|c s1 IH]; simpl; [done|]. by rewrite IH. Qed.

Lemma string_app_inj (s1 s2 r1 r2 : string) :
  String.length s1 = String.length s2 →
  s1 +:+ r1 = s2 +:+ r2 → s1 = s2 ∧ r1 = r2.
Proof.
  revert s2. induction s1 as [|c s1 IH]; intros [|c2 s2]; simpl; try done.
  intros [= Hl] [= -> He]. destruct (IH _ Hl He) as [-> ->]. done.
Qed.

Lemma string_app_inj_r (s1 s2 r1 r2 : string) :
  String.length r1 = String.length r2 →
  s1 +:+ r1 = s2 +:+ r2 → s1 = s2 ∧ r1 = r2.
Proof.
  intros Hl He. apply string_app_inj; [|done].
  apply (f_equal String.length) in He. rewrite !string_length_app in He. lia.
Qed.

Lemma zeros_length (k : nat) : String.length (zeros k) = k.
Proof. induction k as [|k IH]; simpl; [done|]. by rewrite IH. Qed.

(** A positive number is printed without a leading zero. *)
Lemma pretty_N_go_head (x : N) (s : string) :
  (0 < x)%N →
  ∃ c r, pretty_N_go x s = String c r ∧ c ≠ "0"%char.
Proof.
  revert s. induction (N.lt_wf_0 x) as [x _ IH]. intros s Hx.
  rewrite pretty_N_go_step by done.
  destruct (decide (x `div` 10 = 0)%N) as [H0|Hpos].
  - rewrite H0, pretty_N_go_0.
    assert (x < 10)%N as Hlt by (apply N.div_small_iff in H0; lia).
    rewrite N.mod_small by done.
    assert (x = 1 ∨ x = 2 ∨ x = 3 ∨ x = 4 ∨ x = 5 ∨ x = 6 ∨ x = 7 ∨ x = 8
            ∨ x = 9)%N as Hc by lia.
    eexists _, _. split; [reflexivity|].
    repeat (destruct Hc as [->|Hc]; [discriminate|]). by subst x.
  - apply IH; [|by apply N.neq_0_lt_0]. apply N.div_lt; lia.
Qed.

Lemma pretty_Z_head (n : Z) :
  0 ≤ n →
  ∃ c r, pretty n = String c r ∧ (c = "0"%char → n = 0).
Proof.
  intros Hn. destruct n as [|p|p]; [| |lia].
  - by exists "0"%char, EmptyString.
  - unfold pretty, pretty_Z, pretty, pretty_positive, pretty, pretty_N.
    destruct (decide (N.pos p = 0)%N) as [|_]; [done|].
    destruct (pretty_N_go_head (N.pos p) EmptyString) as (c & r & -> & Hc);
      [lia|].
    by exists c, r.
Qed.

Lemma zeros_pretty_inj (k1 k2 : nat) (n1 n2 : Z) :
  0 ≤ n1 → 0 ≤ n2 →
  zeros k1 +:+ pretty n1 = zeros k2 +:+ pretty n2 → n1 = n2.
Proof.
  intros H1 H2. revert k2.
  induction k1 as [|k1 IH]; intros [|k2]; simpl.
  - apply (inj pretty).
  - destruct (pretty_Z_head n1 H1) as (c & r & Hp & Hc),
             (pretty_Z_head n2 H2) as (c2 & r2 & Hp2 & _).
    rewrite Hp. intros [= -> Hr]. rewrite (Hc eq_refl) in Hp.
    injection Hp as <-. rewrite Hp2 in Hr. by destruct k2.
  - destruct (pretty_Z_head n2 H2) as (c & r & Hp & Hc),
             (pretty_Z_head n1 H1) as (c1 & r1 & Hp1 & _).
    rewrite Hp. intros [= <- Hr]. rewrite (Hc eq_refl) in Hp.
    injection Hp as <-. rewrite Hp1 in Hr. by destruct k1.
  - intros [= He]. by apply (IH k2).
Qed.

Lemma pad_inj (w : nat) (n1 n2 : Z) :
  0 ≤ n1 → 0 ≤ n2 → pad w n1 = pad w n2 → n1 = n2.
Proof. intros H1 H2 He. by eapply zeros_pretty_inj. Qed.

Lemma pad_length_ge (w : nat) (n : Z) : (w ≤ String.length (pad w n))%nat.
Proof. unfold pad. rewrite string_length_app, zeros_length. lia. Qed.

Lemma pad2_length (n : Z) : 0 ≤ n < 100 → String.length (pad 2 n) = 2%nat.
Proof.
  intros Hn. apply Nat.eqb_eq.
  revert n Hn. apply (forall_range_spec (pad_length_ok 2) 0 100).
  vm_compute. reflexivity.
Qed.

Lemma pad3_length (n : Z) : 0 ≤ n < 1000 → String.length (pad 3 n) = 3%nat.
Proof.
  intros Hn. apply Nat.eqb_eq.
  revert n Hn. apply (forall_range_spec (pad_length_ok 3) 0 1000).
  vm_compute. reflexivity.
Qed.

Lemma pad4_length (n : Z) : 0 ≤ n < 10000 → String.length (pad 4 n) = 4%nat.
Proof.
  intros Hn. apply Nat.eqb_eq.
  revert n Hn. apply (forall_range_spec (pad_length_ok 4) 0 10000).
  vm_compute. reflexivity.
Qed.

Lemma year_str_cases (y : Z) :
  (0 ≤ y ≤ 9999 ∧ year_str y = pad 4 y) ∨
  (y < 0 ∧ year_str y = String "-" (pad 6 (- y))) ∨
  (9999 < y ∧ year_str y = String "+" (pad 6 y)).
Proof.
  unfold year_str.
  destruct (Z.leb_spec 0 y), (Z.leb_spec y 9999); cbn [andb].
  - left. split; [lia|done].
  - right. right. destruct (Z.ltb_spec y 0); [lia|].
    rewrite Z.abs_eq by lia. split; [lia|done].
  - right. left. destruct (Z.ltb_spec y 0); [|lia].
    rewrite Z.abs_neq by lia. split; [lia|done].
  - lia.
Qed.

Lemma year_str_inj (y1 y2 : Z) : year_str y1 = year_str y2 → y1 = y2.
Proof.
  destruct (year_str_cases y1) as [[H1 ->]|[[H1 ->]|[H1 ->]]],
           (year_str_cases y2) as [[H2 ->]|[[H2 ->]|[H2 ->]]];
    intros He;
    try (injection He as He);
    try (apply pad_inj in He; lia);
    try discriminate He;
    apply (f_equal String.length) in He; simpl in He;
    rewrite pad4_length in He by lia;
    pose proof (pad_length_ge 6 (- y1));
    pose proof (pad_length_ge 6 (- y2));
    pose proof (pad_length_ge 6 y1);
    pose proof (pad_length_ge 6 y2); lia.
Qed.


Lemma civil_from_days_inj (z1 z2 : Z) :
  civil_from_days z1 = civil_from_days z2 → z1 = z2.
Proof.
  destruct (civil_from_days z1) as [[y m] d] eqn:H1. intros H2. symmetry in H2.
  apply civil_from_days_inv in H1 as (_ & _ & <- & _).
  by apply civil_from_days_inv in H2 as (_ & _ & <- & _).
Qed.

(** The time stamp determines the clock reading. *)
Lemma toISOString_inj (t1 t2 : Z) : toISOString t1 = toISOString t2 → t1 = t2.
Proof.
  unfold toISOString.
  destruct (civil_from_days (t1 / 86400000)) as [[y1 m1] d1] eqn:H1.
  destruct (civil_from_days (t2 / 86400000)) as [[y2 m2] d2] eqn:H2.
  pose proof (civil_from_days_inv _ _ _ _ H1) as (Hm1 & Hd1 & _).
  pose proof (civil_from_days_inv _ _ _ _ H2) as (Hm2 & Hd2 & _).
  pose proof (Z.mod_pos_bound t1 86400000 eq_refl) as Hr1.
  pose proof (Z.mod_pos_bound t2 86400000 eq_refl) as Hr2.
  set (r1 := t1 mod 86400000) in *. set (r2 := t2 mod 86400000) in *.
  assert (∀ r, 0 ≤ r < 86400000 →
            0 ≤ r / 3600000 < 100 ∧ 0 ≤ r / 60000 mod 60 < 100 ∧
            0 ≤ r / 1000 mod 60 < 100 ∧ 0 ≤ r mod 1000 < 1000) as Hf.
  { intros r Hr.
    pose proof (Z.mod_pos_bound (r / 60000) 60 eq_refl).
    pose proof (Z.mod_pos_bound (r / 1000) 60 eq_refl).
    pose proof (Z.mod_pos_bound r 1000 eq_refl).
    split; [|lia]. split; [apply Z.div_pos; lia|].
    apply Z.div_lt_upper_bound; lia. }
  destruct (Hf r1 Hr1) as (Hh1 & Hi1 & Hs1 & Hl1).
  destruct (Hf r2 Hr2) as (Hh2 & Hi2 & Hs2 & Hl2).
  intros He.
  apply string_app_inj_r in He as [Hy He].
  2: { rewrite !string_length_app, !pad2_length, !pad3_length by lia.
       reflexivity. }
  apply year_str_inj in Hy as ->.
  apply (inj (String.append _)) in He.
  apply string_app_inj in He as [Hm He]; [|by rewrite !pad2_length by lia].
  apply (inj (String.append _)) in He.
  apply string_app_inj in He as [Hd He]; [|by rewrite !pad2_length by lia].
  apply (inj (String.append _)) in He.
  apply string_app_inj in He as [Hh He]; [|by rewrite !pad2_length by lia].
  apply (inj (String.append _)) in He.
  apply string_app_inj in He as [Hi He]; [|by rewrite !pad2_length by lia].
  apply (inj (String.append _)) in He.
  apply string_app_inj in He as [Hs He]; [|by rewrite !pad2_length by lia].
  apply (inj (String.append _)) in He.
  apply string_app_inj in He as [Hl _]; [|by rewrite !pad3_length by lia].
  apply pad_inj in Hm, Hd, Hh, Hi, Hs, Hl; try lia. subst m2 d2.
  assert (t1 / 86400000 = t2 / 86400000) as Hdays.
  { apply civil_from_days_inj. by rewrite H1, H2. }
  assert (r1 = r2) as Hr.
  { pose proof (Z.div_mod r1 1000 ltac:(lia)).
    pose proof (Z.div_mod r2 1000 ltac:(lia)).
    pose proof (Z.div_mod (r1 / 1000) 60 ltac:(lia)).
    pose proof (Z.div_mod (r2 / 1000) 60 ltac:(lia)).
    pose proof (Z.div_mod (r1 / 60000) 60 ltac:(lia)).
    pose proof (Z.div_mod (r2 / 60000) 60 ltac:(lia)).
    assert (r1 / 1000 / 60 = r1 / 60000) by (by rewrite Z.div_div by lia).
    assert (r2 / 1000 / 60 = r2 / 60000) by (by rewrite Z.div_div by lia).
    assert (r1 / 60000 / 60 = r1 / 3600000) by (by rewrite Z.div_div by lia).
    assert (r2 / 60000 / 60 = r2 / 3600000) by (by rewrite Z.div_div by lia).
    lia. }
  pose proof (Z.div_mod t1 86400000 ltac:(lia)).
  pose proof (Z.div_mod t2 86400000 ltac:(lia)).
  unfold r1, r2 in Hr. lia.
Qed.

(** X16. A fingerprint tells clock readings apart.  Two message
    fingerprints of the same sender, text and room kind made at
    different clock readings (of those a [Date] can hold) are different
    strings, and so are two badge fingerprints of the same address and
    flag: the window can only ever match a repeat that is handled at the
    very same millisecond. *)
Theorem fingerprints_tell_instants_apart :
  (∀ (sender m : jsval) (k : chat_type) (t1 t2 : Z),
     in_date_range t1 → in_date_range t2 →
     make_messageId sender (toISOString t1) m k
     = make_messageId sender (toISOString t2) m k →
     t1 = t2) ∧
  (∀ (a : string) (v : jsval) (t1 t2 : Z),
     make_badgeEventId a v t1 = make_badgeEventId a v t2 → t1 = t2).
Proof.
  split.
  - intros sender m k t1 t2 _ _. unfold make_messageId. intros He.
    apply (inj (String.append _)) in He.
    apply (inj (String.append _)) in He.
    apply string_app_inj_r in He as [He _]; [|done].
    by apply toISOString_inj.
  - intros a v t1 t2. unfold make_badgeEventId. intros He.
    do 5 apply (inj (String.append _)) in He.
    by apply (inj pretty).
Qed.

Lemma fingerprints_tell_instants_apart_witness : 1700000000000 = 1700000000000.
Proof.
  apply (proj1 fingerprints_tell_instants_apart (VStr "0xab") (VStr "hi")
           Normal 1700000000000 1700000000000);
    [unfold in_date_range; lia | unfold in_date_range; lia | reflexivity].
Defined.





(** ** The badge gate and the badge directory *)





(** ** Revocation, and sends after it *)



(** The socket [s1] is in the privileged room when the revocation of the
    witness above arrives: the grant put it there. *)
Example granted_socket_is_member :
  bool_decide (("s1", CHAT_ROOMS.VIP)
               ∈ rooms (state_after granted_events (initial 1700000000000)))
  = true.
Proof. vm_compute. reflexivity. Qed.

(** ** Names that a plain object inherits *)

(** C5 does not hold of the code: a name that a plain object inherits
    passes the badge check.  On a fresh server the badge directory
    stores nothing, so no address has a badge.  A [send-message] to the
    privileged room under the address [constructor] is nevertheless not
    refused: no notice goes out, and the message is broadcast to
    [chat-vip].  The check reads [userBadges.constructor], which the
    object literal inherits from [Object.prototype]. *)
Theorem vip_send_passes_on_inherited_name :
  own (userBadges (initial 0)) = ∅ ∧
  stored_flag (initial 0) "constructor" = false ∧
  ∃ s' m,
    send_message "u" "s1" (VStr "hi") (VStr "bob") (VStr "constructor")
      (VStr "vip") (initial 0)
    = Ok (s', [RoomEmitNewMessage CHAT_ROOMS.VIP m "vip"]) ∧
    msg_id m = VStr "constructor" ∧
    msg_message m = VStr "hi".
Proof.
  split; [reflexivity|]. split; [reflexivity|].
  eexists _, _. split; [vm_compute; reflexivity|]. split; reflexivity.
Qed.

(** C10 does not hold of the code for the address [__proto__].  A
    socket joins under that address (and the join already announces a
    badge for it); a [badge-update] grants the address a badge, which
    puts the socket in the privileged room and welcomes it; a second one
    revokes the badge.  The socket is still in the room, but its next
    send to the privileged room is not refused: it is broadcast.  The
    assignment [userBadges.__proto__ = false] stores nothing, and the
    check reads the inherited [__proto__], an object. *)
Theorem revocation_of_proto_address_not_enforced :
  emitted proto_session (initial 1700000000000)
  = [ IoEmitBadgeUpdate "__proto__" (VBool true);
      IoEmitBadgeUpdate "__proto__" (VBool true);
      SocketEmitNewMessage "s1"
        (system_message VIP_WELCOME 1700000000000 "s1" "vip") "vip";
      IoEmitBadgeUpdate "__proto__" (VBool false) ] ∧
  bool_decide (("s1", CHAT_ROOMS.VIP)
               ∈ rooms (state_after proto_session (initial 1700000000000)))
  = true ∧
  stored_flag (state_after proto_session (initial 1700000000000)) "__proto__"
  = false ∧
  ∃ s' m,
    send_message "u" "s1" (VStr "hi") (VStr "bob") VUndefined (VStr "vip")
      (state_after proto_session (initial 1700000000000))
    = Ok (s', [RoomEmitNewMessage CHAT_ROOMS.VIP m "vip"]) ∧
    msg_id m = VStr "__proto__".
Proof.
  split; [vm_compute; reflexivity|].
  split; [vm_compute; reflexivity|].
  split; [vm_compute; reflexivity|].
  eexists _, _. split; [vm_compute; reflexivity|]. reflexivity.
Qed.

(** ** The two models agree on primitives *)

Lemma wire_default_arg (d v : jsval) :
  Wire.default_arg (Wire.Prim d) (Wire.Prim v) = Wire.Prim (default_arg d v).
Proof. by destruct v. Qed.

Lemma normalizeChatType_on_primitives (v : jsval) :
  Wire.normalizeChatType (Wire.Prim v) = normalizeChatType v.
Proof. reflexivity. Qed.

Lemma wire_badge_truthy (b : badge_store) (k : string) :
  Wire.badge_truthy (wire_badges b) k = badge_truthy b k.
Proof.
  unfold Wire.badge_truthy, badge_truthy, wire_badges. cbn.
  rewrite lookup_fmap. destruct (own b !! k); cbn; [done|].
  by destruct (inherits b).
Qed.

Lemma wire_badge_set (k : string) (v : jsval) (b : badge_store) :
  Wire.badge_set k (Wire.Prim v) (wire_badges b) = wire_badges (badge_set k v b).
Proof.
  destruct b as [o i]. unfold Wire.badge_set, badge_set, wire_badges. cbn.
  rewrite lookup_fmap. destruct (o !! k); cbn.
  - by rewrite fmap_insert.
  - destruct i, (String.eqb k "__proto__"); cbn;
      rewrite ?fmap_insert; try done.
    by destruct v.
Qed.

Lemma wire_store_address (sid : string) (a : jsval) (s : state) :
  Wire.store_address sid (Wire.Prim a) (wire_state s)
  = s1 ← store_address sid a s; Ok (wire_state s1).
Proof.
  unfold Wire.store_address, store_address. cbn [Wire.truthy].
  destruct (truthy a); [|done]. cbn [Wire.call_toLowerCase].
  by destruct (call_toLowerCase a).
Qed.

Lemma wire_effective_address (sid : string) (a : jsval) (s : state) :
  Wire.effective_address sid (Wire.Prim a) (wire_state s)
  = Wire.Prim (effective_address sid a s).
Proof.
  unfold Wire.effective_address, effective_address, Wire.js_or, js_or,
    Wire.stored_address, stored_address. cbn.
  destruct (userAddresses s !! sid); cbn; [|done].
  by destruct (negb _).
Qed.

Lemma wire_hasBadge (s : state) (a : jsval) :
  Wire.hasBadge (wire_state s) (Wire.Prim a) = hasBadge s a.
Proof.
  unfold Wire.hasBadge, hasBadge.
  destruct a as [| | | |x]; cbn; by rewrite ?wire_badge_truthy.
Qed.

Lemma wire_admitOnce (fp : string) (s : state) :
  Wire.admitOnce fp (wire_state s)
  = ((admitOnce fp s).1, wire_state (admitOnce fp s).2).
Proof.
  unfold Wire.admitOnce, admitOnce. cbn.
  by destruct (decide (fp ∈ sentMessages s)).
Qed.

Lemma wire_grant_vip (uuid : string → string) (a : string) (s : state) :
  Wire.grant_vip uuid a (wire_state s)
  = (wire_state (grant_vip uuid a s).1, wire_emit <$> (grant_vip uuid a s).2).
Proof.
  unfold Wire.grant_vip, grant_vip, Wire.vip_targets, vip_targets. cbn.
  f_equal. generalize (filter (λ p : string * string, p.2 = a ∧ p.1 ∈ sockets s)
                        (map_to_list (userAddresses s))).*1.
  intros l. induction l as [|c l IH]; [done|]. cbn. by rewrite IH.
Qed.

Lemma wire_joined (sid room : string) (u : jsval) (s : state) :
  Wire.socket_join sid room
    (Wire.set_usernames (<[sid := Wire.Prim u]>) (wire_state s))
  = wire_state (socket_join sid room (set_usernames (<[sid := u]>) s)).
Proof.
  unfold Wire.socket_join, Wire.set_rooms, Wire.set_usernames, wire_state.
  cbn. by rewrite fmap_insert.
Qed.

Theorem join_chat_on_primitives (sid : string) (u a c : jsval) (s : state) :
  Wire.join_chat sid (Wire.Prim u) (Wire.Prim a) (Wire.Prim c) (wire_state s)
  = wire_result (join_chat sid u a c s).
Proof.
  unfold Wire.join_chat, join_chat. rewrite !wire_default_arg.
  rewrite normalizeChatType_on_primitives.
  destruct (normalizeChatType _) as [ct|]; [|reflexivity]. run_bind.
  cbn [Wire.to_string]. run_bind. rewrite wire_store_address.
  destruct (store_address _ _ s) as [s1|]; [|reflexivity]. run_bind.
  rewrite wire_joined.
  cbn [Wire.truthy]. destruct (truthy _); [|reflexivity].
  cbn [Wire.call_toLowerCase].
  destruct (call_toLowerCase _) as [l|]; [|reflexivity].
  run_bind.
  change (Wire.userBadges (wire_state ?x)) with (wire_badges (userBadges x)).
  rewrite wire_badge_truthy.
  by destruct (badge_truthy _ _).
Qed.

Theorem send_message_on_primitives (uuid sid : string) (m u a c : jsval)
    (s : state) :
  Wire.send_message uuid sid (Wire.Prim m) (Wire.Prim u) (Wire.Prim a)
    (Wire.Prim c) (wire_state s)
  = wire_result (send_message uuid sid m u a c s).
Proof.
  unfold Wire.send_message, send_message. rewrite !wire_default_arg.
  rewrite normalizeChatType_on_primitives.
  destruct (normalizeChatType _) as [ct|]; [|reflexivity]. run_bind.
  cbn [Wire.to_string]. run_bind. rewrite wire_store_address.
  destruct (store_address _ _ s) as [s1|]; [|reflexivity]. run_bind.
  rewrite wire_effective_address, wire_hasBadge.
  destruct (if decide (ct = Vip) then _ else _) as [[]|]; run_bind; [reflexivity| |reflexivity].
  unfold Wire.js_or, js_or. cbn [Wire.truthy].
  unfold Wire.make_messageId, make_messageId.
  destruct (truthy (effective_address _ _ _)); cbn [Wire.to_string]; run_bind;
    rewrite wire_admitOnce;
    destruct (admitOnce _ s1) as [[] s2]; reflexivity.
Qed.

Theorem badge_update_on_primitives (uuid : string → string) (sid : string)
    (a b : jsval) (s : state) :
  Wire.badge_update uuid sid (Wire.Prim a) (Wire.Prim b) (wire_state s)
  = wire_result (badge_update uuid sid a b s).
Proof.
  unfold Wire.badge_update, badge_update. cbn [Wire.truthy].
  destruct (negb (truthy a)); [done|]. cbn [Wire.call_toLowerCase].
  destruct (call_toLowerCase a) as [l|]; [|reflexivity]. run_bind.
  unfold Wire.make_badgeEventId, make_badgeEventId. cbn [Wire.to_string].
  run_bind.
  change (Wire.set_userBadges (Wire.badge_set l (Wire.Prim b)) (wire_state s))
    with (Wire.State (userAddresses s) (Wire.Prim <$> usernames s)
            (Wire.badge_set l (Wire.Prim b) (wire_badges (userBadges s)))
            (sentMessages s) (timers s) (rooms s) (sockets s) (clock s)).
  rewrite wire_badge_set.
  change (Wire.State _ _ _ _ _ _ _ _)
    with (wire_state (set_userBadges (badge_set l b) s)).
  rewrite wire_admitOnce. cbn [Wire.clock wire_state].
  change (clock (set_userBadges (badge_set l b) s)) with (clock s).
  destruct (admitOnce _ _) as [[] s2]; cbn [fst snd]; [|reflexivity].
  destruct (truthy b); [|reflexivity].
  rewrite wire_grant_vip. by destruct (grant_vip uuid l s2).
Qed.

Theorem disconnect_on_primitives (sid : string) (r : jsval) (s : state) :
  Wire.disconnect sid (Wire.Prim r) (wire_state s)
  = Ok (wire_state (disconnect sid r s)).
Proof.
  destruct s as [ua un ub sm tm rm sk ck].
  unfold Wire.disconnect, disconnect, Wire.stored_address, stored_address.
  cbn [Wire.to_string]. run_bind. f_equal. cbn.
  destruct (ua !! sid) as [x|]; cbn;
    [destruct (negb (String.eqb x EmptyString)); cbn|];
    rewrite lookup_fmap; destruct (un !! sid) as [v|]; cbn; try done;
    destruct (truthy v); cbn; try done;
    unfold Wire.set_usernames, Wire.set_userAddresses, set_usernames,
      set_userAddresses, wire_state; cbn; by rewrite fmap_delete.
Qed.

(** ** Room normalization on every input *)

Lemma wire_normalizeChatType_not_string (w : Wire.value) :
  Wire.truthy w = true → (∀ s, w ≠ Wire.Prim (VStr s)) →
  is_ok (Wire.normalizeChatType w) = false.
Proof.
  intros Ht Hs. unfold Wire.normalizeChatType. rewrite Ht.
  destruct w as [[| | | |x]| |]; try reflexivity. by destruct (Hs x).
Qed.

(** C8, as the code has it.  [normalizeChatType] sends a string to
    [Vip] exactly when it is one of the spellings of [vip] up to letter
    case ([VIP], [vip], [Vip], ...) and every other string ([normal],
    the empty string, anything unrecognized) to [Normal]; it sends
    every falsy value (an absent one, [null], [false], [0]) to [Normal]
    too.  On any other input, a truthy value that is not a string (a
    number, [true], an array, an object), it throws.  On primitives this
    is the function of the model above. *)
Theorem normalizeChatType_on_every_input :
  (∀ s : string,
     Wire.normalizeChatType (Wire.Prim (VStr s))
     = Ok (if bool_decide (s ∈ vip_spellings) then Vip else Normal)) ∧
  (∀ w : Wire.value,
     Wire.truthy w = false → Wire.normalizeChatType w = Ok Normal) ∧
  (∀ w : Wire.value,
     Wire.truthy w = true → (∀ s, w ≠ Wire.Prim (VStr s)) →
     is_ok (Wire.normalizeChatType w) = false) ∧
  (∀ v : jsval, Wire.normalizeChatType (Wire.Prim v) = normalizeChatType v) ∧
  Wire.normalizeChatType (Wire.Prim (VStr "VIP")) = Ok Vip ∧
  Wire.normalizeChatType (Wire.Prim (VStr "vip")) = Ok Vip ∧
  Wire.normalizeChatType (Wire.Prim (VStr "Vip")) = Ok Vip ∧
  Wire.normalizeChatType (Wire.Prim (VStr "normal")) = Ok Normal ∧
  Wire.normalizeChatType (Wire.Prim (VStr EmptyString)) = Ok Normal ∧
  Wire.normalizeChatType (Wire.Prim VUndefined) = Ok Normal ∧
  Wire.normalizeChatType (Wire.Prim (VStr "anything-else")) = Ok Normal.
Proof.
  split; [intros s; apply normalizeChatType_string|].
  split; [intros w Hw; unfold Wire.normalizeChatType; by rewrite Hw|].
  split; [exact wire_normalizeChatType_not_string|].
  repeat split; reflexivity.
Qed.

Lemma normalizeChatType_on_every_input_witness :
  Wire.normalizeChatType (Wire.Prim (VStr "ViP")) = Ok Vip ∧
  Wire.normalizeChatType (Wire.Prim (VNum 0)) = Ok Normal ∧
  is_ok (Wire.normalizeChatType (Wire.Obj [("kind", Wire.Prim (VStr "vip"))]))
  = false.
Proof.
  destruct normalizeChatType_on_every_input as (Hs & Hf & Ht & _).
  split; [exact (Hs "ViP")|].
  split; [apply Hf; reflexivity|].
  apply Ht; [reflexivity|discriminate].
Defined.

(** C8 fails as stated: an input that is neither [vip] in some letter
    case nor a string at all is not always sent to [Normal].  On the
    number 5, on [true], on an empty array and on an empty object the
    function throws. *)
Lemma normalizeChatType_throws_on_non_strings :
  normalizeChatType (VNum 5) ≠ Ok Normal ∧
  is_ok (normalizeChatType (VNum 5)) = false ∧
  is_ok (normalizeChatType (VBool true)) = false ∧
  is_ok (Wire.normalizeChatType (Wire.Prim (VNum 5))) = false ∧
  is_ok (Wire.normalizeChatType (Wire.Arr [])) = false ∧
  is_ok (Wire.normalizeChatType (Wire.Obj [])) = false.
Proof. repeat split; try reflexivity. discriminate. Qed.

(** ** Totality on every input *)

Lemma printable_prim (v : jsval) : Wire.printable (Wire.Prim v) = true.
Proof. reflexivity. Qed.

Lemma printable_obj (props : list (string * Wire.value)) :
  Wire.printable (Wire.Obj props)
  = bool_decide (Wire.get_prop "toString" props = None).
Proof.
  unfold Wire.printable. cbn.
  by destruct (Wire.get_prop "toString" props).
Qed.

Lemma printable_arr (items : list Wire.value) :
  Wire.printable (Wire.Arr items) = forallb Wire.printable items.
Proof.
  unfold Wire.printable. cbn [Wire.to_string].
  induction items as [|x rest IH]; [reflexivity|].
  cbn [forallb].
  assert (is_ok (match x with
                 | Wire.Prim VUndefined | Wire.Prim VNull => Ok EmptyString
                 | _ => Wire.to_string x
                 end) = is_ok (Wire.to_string x)) as Hx.
  { by destruct x as [[| | | |]| |]. }
  destruct (match x with
            | Wire.Prim VUndefined | Wire.Prim VNull => Ok EmptyString
            | _ => Wire.to_string x
            end) as [sx|] eqn:Hex; rewrite <- Hx; run_bind; [|reflexivity].
  cbn [is_ok andb]. destruct rest as [|y rest]; [reflexivity|].
  rewrite <- IH.
  match goal with |- is_ok (mbind _ ?r) = _ => by destruct r end.
Qed.

Lemma wire_normalizeChatType_declared (c : Wire.value) :
  Wire.string_or_absent c = true →
  Wire.normalizeChatType (Wire.default_arg (Wire.Prim (VStr "normal")) c)
  = Ok (Wire.requested_kind c).
Proof.
  destruct c as [v| |]; try discriminate. cbn [Wire.string_or_absent].
  intros Hv. rewrite wire_default_arg, normalizeChatType_on_primitives.
  by apply normalizeChatType_declared.
Qed.

Lemma wire_store_address_declared (sid : string) (a : Wire.value)
    (s : Wire.state) :
  Wire.string_or_absent a = true →
  ∃ v s1,
    Wire.default_arg (Wire.Prim (VStr EmptyString)) a = Wire.Prim v ∧
    string_or_absent v = true ∧
    Wire.store_address sid (Wire.Prim v) s = Ok s1 ∧
    Wire.clock s1 = Wire.clock s.
Proof.
  destruct a as [[| | | |x]| |]; try discriminate; intros _; cbn.
  - by eexists (VStr EmptyString), s.
  - by eexists VNull, s.
  - exists (VStr x). unfold Wire.store_address. cbn.
    destruct (negb _); by eexists.
Qed.

Lemma wire_hasBadge_declared (sid : string) (v : jsval) (s : Wire.state) :
  string_or_absent v = true →
  is_ok (Wire.hasBadge s (Wire.effective_address sid (Wire.Prim v) s)) = true.
Proof.
  intros Hv. unfold Wire.hasBadge, Wire.effective_address, Wire.js_or,
    Wire.stored_address.
  destruct (Wire.userAddresses s !! sid) as [x|]; cbn.
  - destruct (negb _); [reflexivity|]. by destruct v.
  - by destruct v.
Qed.

Lemma wire_sender_printable (sid : string) (v : jsval) (s : Wire.state) :
  Wire.printable
    (Wire.js_or (Wire.effective_address sid (Wire.Prim v) s)
       (Wire.Prim (VStr sid))) = true.
Proof.
  unfold Wire.effective_address, Wire.js_or, Wire.stored_address.
  destruct (Wire.userAddresses s !! sid) as [x|]; cbn.
  - destruct (negb (String.eqb x EmptyString)) eqn:Hx; cbn; rewrite ?Hx;
      [reflexivity|]. by destruct (truthy v).
  - by destruct (truthy v).
Qed.

Lemma wire_join_chat_ok (sid : string)
    (username address inputChatType : Wire.value) (s : Wire.state) :
  Wire.string_or_absent address = true →
  Wire.string_or_absent inputChatType = true →
  Wire.printable username = true →
  is_ok (Wire.join_chat sid username address inputChatType s) = true.
Proof.
  intros Ha Hc Hu. unfold Wire.join_chat.
  rewrite (wire_normalizeChatType_declared _ Hc). run_bind.
  unfold Wire.printable in Hu.
  destruct (Wire.to_string username) as [su|]; [|discriminate Hu]. run_bind.
  destruct (wire_store_address_declared sid address s Ha)
    as (v & s1 & -> & Hv & -> & _).
  cbn [Wire.to_string]. run_bind. cbn [Wire.truthy Wire.call_toLowerCase].
  destruct v as [| | | |x]; try discriminate Hv; try reflexivity.
  cbn [truthy]. destruct (negb _); [|reflexivity].
  cbn [call_toLowerCase]. run_bind. by destruct (Wire.badge_truthy _ _).
Qed.

Lemma wire_send_message_ok (uuid sid : string)
    (message username address inputChatType : Wire.value) (s : Wire.state) :
  Wire.string_or_absent address = true →
  Wire.string_or_absent inputChatType = true →
  Wire.printable username = true →
  Wire.printable message = true →
  is_ok (Wire.send_message uuid sid message username address inputChatType s)
  = true.
Proof.
  intros Ha Hc Hu Hm. unfold Wire.send_message.
  rewrite (wire_normalizeChatType_declared _ Hc). run_bind.
  unfold Wire.printable in Hu, Hm.
  destruct (Wire.to_string username) as [su|]; [|discriminate Hu]. run_bind.
  destruct (wire_store_address_declared sid address s Ha)
    as (v & s1 & -> & Hv & -> & _). run_bind.
  pose proof (wire_hasBadge_declared sid v s1 Hv) as Hb.
  pose proof (wire_sender_printable sid v s1) as Hp.
  unfold Wire.printable in Hp. unfold Wire.make_messageId.
  destruct (Wire.to_string (Wire.js_or _ _)) as [ss|]; [|discriminate Hp].
  destruct (Wire.to_string message) as [sm|]; [|discriminate Hm].
  destruct (decide (Wire.requested_kind inputChatType = Vip)) as [_|_].
  - destruct (Wire.hasBadge s1 _) as [b|]; [|discriminate Hb].
    run_bind. destruct b; cbn [negb]; [|reflexivity].
    destruct (Wire.admitOnce _ s1) as [[] ?]; reflexivity.
  - run_bind. destruct (Wire.admitOnce _ s1) as [[] ?]; reflexivity.
Qed.

Lemma wire_badge_update_ok (uuid : string → string) (sid : string)
    (address hasBadge : Wire.value) (s : Wire.state) :
  Wire.string_or_absent address = true →
  Wire.printable hasBadge = true →
  is_ok (Wire.badge_update uuid sid address hasBadge s) = true.
Proof.
  intros Ha Hb. unfold Wire.badge_update.
  destruct address as [[| | | |a]| |]; try discriminate; try reflexivity.
  cbn [Wire.truthy]. destruct (negb (truthy (VStr a))); [reflexivity|].
  cbn [Wire.call_toLowerCase call_toLowerCase]. run_bind.
  unfold Wire.make_badgeEventId. unfold Wire.printable in Hb.
  destruct (Wire.to_string hasBadge) as [sb|]; [|discriminate Hb]. run_bind.
  destruct (Wire.admitOnce _ _) as [[] ?]; [|reflexivity].
  destruct (Wire.truthy hasBadge); [|reflexivity].
  by destruct (Wire.grant_vip _ _ _).
Qed.

(** C7, as the code has it.  A handler completes when its address and
    room parameters are strings or absent and the values it puts into a
    template literal can be converted to a string: the name for
    [join-chat], the name and the message for [send-message], the flag
    for [badge-update].  [disconnect], which the transport calls with a
    string, always completes.  The room parameter is read as the kind
    its spelling names, anything unrecognized being [Normal], and a
    [badge-update] without an address changes nothing and emits nothing,
    whatever its flag.  Every primitive can be converted to a string; an
    object can unless it has an own property [toString], and an array
    can when all its elements can. *)
Theorem handlers_total_on_documented_inputs
    (uuid : string) (uuids : string → string) (sid reason : string)
    (message username address inputChatType hasBadge : Wire.value)
    (s : Wire.state) :
  Wire.string_or_absent address = true →
  Wire.string_or_absent inputChatType = true →
  (Wire.printable username = true →
   is_ok (Wire.join_chat sid username address inputChatType s) = true) ∧
  (Wire.printable username = true → Wire.printable message = true →
   is_ok (Wire.send_message uuid sid message username address inputChatType s)
   = true) ∧
  (Wire.printable hasBadge = true →
   is_ok (Wire.badge_update uuids sid address hasBadge s) = true) ∧
  is_ok (Wire.disconnect sid (Wire.Prim (VStr reason)) s) = true ∧
  Wire.normalizeChatType
    (Wire.default_arg (Wire.Prim (VStr "normal")) inputChatType)
  = Ok (Wire.requested_kind inputChatType) ∧
  (Wire.truthy address = false →
   Wire.badge_update uuids sid address hasBadge s = Ok (s, [])) ∧
  (∀ v : jsval, Wire.printable (Wire.Prim v) = true) ∧
  (∀ props, Wire.printable (Wire.Obj props)
            = bool_decide (Wire.get_prop "toString" props = None)) ∧
  (∀ items, Wire.printable (Wire.Arr items)
            = forallb Wire.printable items).
Proof.
  intros Ha Hc.
  split; [by apply wire_join_chat_ok|].
  split; [by apply wire_send_message_ok|].
  split; [by apply wire_badge_update_ok|].
  split; [reflexivity|].
  split; [by apply wire_normalizeChatType_declared|].
  split; [intros Hf; unfold Wire.badge_update; by rewrite Hf|].
  split; [exact printable_prim|].
  split; [exact printable_obj|exact printable_arr].
Qed.

Lemma handlers_total_on_documented_inputs_witness :
  is_ok (Wire.join_chat "s1" (Wire.Obj [("first", Wire.Prim (VStr "bob"))])
           (Wire.Prim (VStr "0xAB")) (Wire.Prim (VStr "lobby"))
           (Wire.initial 0)) = true ∧
  is_ok (Wire.send_message "u" "s1"
           (Wire.Arr [Wire.Prim (VNum 1); Wire.Prim VNull;
                      Wire.Arr [Wire.Prim (VStr "a")]])
           (Wire.Obj [("first", Wire.Prim (VStr "bob"))])
           (Wire.Prim (VStr "0xAB")) (Wire.Prim (VStr "lobby"))
           (Wire.initial 0)) = true ∧
  is_ok (Wire.badge_update (λ c, c) "s1" (Wire.Prim (VStr "0xAB"))
           (Wire.Obj []) (Wire.initial 0)) = true.
Proof.
  destruct (handlers_total_on_documented_inputs "u" (λ c, c) "s1"
              "transport close"
              (Wire.Arr [Wire.Prim (VNum 1); Wire.Prim VNull;
                         Wire.Arr [Wire.Prim (VStr "a")]])
              (Wire.Obj [("first", Wire.Prim (VStr "bob"))])
              (Wire.Prim (VStr "0xAB")) (Wire.Prim (VStr "lobby"))
              (Wire.Obj []) (Wire.initial 0) eq_refl eq_refl)
    as (Hj & Hs & Hb & _).
  split; [apply Hj; reflexivity|].
  split; [apply Hs; reflexivity|].
  apply Hb; reflexivity.
Defined.

(** C7 fails as stated: there are inputs on which a handler throws.  A
    number as room kind stops [join-chat], [true] or an empty array as
    address stops [send-message] and a number as address stops
    [badge-update], each at the call of [toLowerCase].  An object with
    an own property [toString] stops [join-chat] as the name, and
    [send-message] as the message, and [badge-update] as the flag, each
    at a template literal. *)
Lemma handlers_throw_on_other_inputs :
  is_ok (Wire.join_chat "s1" (Wire.Prim (VStr "bob"))
           (Wire.Prim (VStr EmptyString)) (Wire.Prim (VNum 5))
           (Wire.initial 0)) = false ∧
  is_ok (Wire.send_message "u" "s1" (Wire.Prim (VStr "hi"))
           (Wire.Prim (VStr "bob")) (Wire.Prim (VBool true))
           (Wire.Prim (VStr "normal")) (Wire.initial 0)) = false ∧
  is_ok (Wire.send_message "u" "s1" (Wire.Prim (VStr "hi"))
           (Wire.Prim (VStr "bob")) (Wire.Arr [])
           (Wire.Prim (VStr "normal")) (Wire.initial 0)) = false ∧
  is_ok (Wire.badge_update (λ c, c) "s1" (Wire.Prim (VNum 1))
           (Wire.Prim (VBool true)) (Wire.initial 0)) = false ∧
  is_ok (Wire.join_chat "s1" (Wire.Obj [("toString", Wire.Prim VNull)])
           (Wire.Prim (VStr "0xAB")) (Wire.Prim (VStr "normal"))
           (Wire.initial 0)) = false ∧
  is_ok (Wire.send_message "u" "s1"
           (Wire.Obj [("toString", Wire.Prim VNull)])
           (Wire.Prim (VStr "bob")) (Wire.Prim (VStr "0xAB"))
           (Wire.Prim (VStr "normal")) (Wire.initial 0)) = false ∧
  is_ok (Wire.badge_update (λ c, c) "s1" (Wire.Prim (VStr "0xAB"))
           (Wire.Obj [("toString", Wire.Prim VNull)]) (Wire.initial 0))
  = false.
Proof. repeat split; reflexivity. Qed.

(** ** Conversions to string, by example *)

Example to_string_of_array :
  Wire.to_string
    (Wire.Arr [Wire.Prim (VNum 1); Wire.Prim VNull;
               Wire.Arr [Wire.Prim (VStr "a"); Wire.Prim (VBool true)];
               Wire.Obj [("a", Wire.Prim (VNum 1))]])
  = Ok "1,,a,true,[object Object]".
Proof. reflexivity. Qed.

Example to_string_of_object_with_toString :
  Wire.to_string (Wire.Obj [("toString", Wire.Prim VNull)])
  = Throw Wire.CANNOT_CONVERT ∧
  Wire.to_string (Wire.Arr [Wire.Prim (VNum 1);
                            Wire.Obj [("toString", Wire.Prim (VStr "x"))]])
  = Throw Wire.CANNOT_CONVERT.
Proof. split; reflexivity. Qed.

(** An object assigned to [userBadges.__proto__] becomes what the
    directory inherits from: its properties then read as flags. *)
Example prototype_assignment :
  ∃ s o,
    Wire.badge_update (λ c, c) "s1" (Wire.Prim (VStr "__proto__"))
      (Wire.Obj [("0xab", Wire.Prim (VBool true))]) (Wire.initial 0)
    = Ok (s, o) ∧
    Wire.own (Wire.userBadges s) = ∅ ∧
    Wire.hasBadge s (Wire.Prim (VStr "0xAB")) = Ok true ∧
    Wire.hasBadge s (Wire.Prim (VStr "0xcd")) = Ok false ∧
    Wire.hasBadge s (Wire.Prim (VStr "constructor")) = Ok true.
Proof. eexists _, _. repeat split; reflexivity. Qed.

(** The same with an array: its elements, its length and the methods of
    arrays read as flags. *)
Example prototype_assignment_of_array :
  ∃ s o,
    Wire.badge_update (λ c, c) "s1" (Wire.Prim (VStr "__proto__"))
      (Wire.Arr [Wire.Prim (VBool false); Wire.Prim (VNum 7)])
      (Wire.initial 0)
    = Ok (s, o) ∧
    Wire.hasBadge s (Wire.Prim (VStr "0")) = Ok false ∧
    Wire.hasBadge s (Wire.Prim (VStr "1")) = Ok true ∧
    Wire.hasBadge s (Wire.Prim (VStr "2")) = Ok false ∧
    Wire.hasBadge s (Wire.Prim (VStr "length")) = Ok true ∧
    Wire.hasBadge s (Wire.Prim (VStr "push")) = Ok true ∧
    Wire.hasBadge s (Wire.Prim (VStr "0xab")) = Ok false.
Proof. eexists _, _. repeat split; reflexivity. Qed.

(** After [userBadges.__proto__ = null] the directory inherits nothing,
    and the name [__proto__] is stored like any other. *)
Example prototype_detached :
  ∃ s1 o1 s2 o2,
    Wire.badge_update (λ c, c) "s1" (Wire.Prim (VStr "__proto__"))
      (Wire.Prim VNull) (Wire.initial 0) = Ok (s1, o1) ∧
    Wire.hasBadge s1 (Wire.Prim (VStr "constructor")) = Ok false ∧
    Wire.hasBadge s1 (Wire.Prim (VStr "__proto__")) = Ok false ∧
    Wire.badge_update (λ c, c) "s1" (Wire.Prim (VStr "__proto__"))
      (Wire.Prim (VBool true)) s1 = Ok (s2, o2) ∧
    Wire.hasBadge s2 (Wire.Prim (VStr "__proto__")) = Ok true.
Proof. eexists _, _, _, _. repeat split; reflexivity. Qed.
